(** * MathTrainingLabs: the adaptive drill engine

    A shallow embedding of the statistics / question module ([lib/math]) and
    of the pure parts of [app/page.tsx]: the mistake ledger, the practice
    queue, question creation, the settings steppers, the recording of a
    result and two tip helpers; with the properties of the leveling state
    machine, the question generator, the skill selection and the ledger.

    Numbers.  Levels, streak counters, operands, answers, time stamps and
    elapsed milliseconds are integers in the program (table entries,
    [Math.floor] results, [Date.now()] differences, counters that grow by one);
    they are modelled as [Z].  The only fractional quantities are the value of
    [Math.random()] and the accuracy [correct / history.length]; they are
    modelled as exact rationals [Q]. *)

From Stdlib Require Import ZArith QArith Qround Qminmax Lia Lqa Sorted.
From stdpp Require Import base list strings pretty.
From Equations Require Import Equations.

Open Scope Z_scope.

(** ** Data model *)

Inductive SkillKey : Set := add | sub | mul | div.

#[global] Instance SkillKey_eq_dec : EqDecision SkillKey.
Proof. solve_decision. Defined.

(** The key as it prints inside a template literal. *)
Definition skillName (skill : SkillKey) : string :=
  match skill with
  | add => "add"
  | sub => "sub"
  | mul => "mul"
  | div => "div"
  end.

Record Result : Set := mkResult { correct : bool; ms : Z }.

Record SkillStats : Set := mkSkillStats {
  level : Z;
  streak : Z;
  mistakeStreak : Z;
  history : list Result
}.

(** [Stats = Record<SkillKey, SkillStats>]: an object with exactly the four
    skill keys. *)
Record Stats : Set := mkStats {
  st_add : SkillStats;
  st_sub : SkillStats;
  st_mul : SkillStats;
  st_div : SkillStats
}.

(** [stats[skill]] *)
Definition statsGet (stats : Stats) (skill : SkillKey) : SkillStats :=
  match skill with
  | add => st_add stats
  | sub => st_sub stats
  | mul => st_mul stats
  | div => st_div stats
  end.

(** [{ ...stats, [skill]: v }] *)
Definition statsSet (stats : Stats) (skill : SkillKey) (v : SkillStats) : Stats :=
  match skill with
  | add => mkStats v (st_sub stats) (st_mul stats) (st_div stats)
  | sub => mkStats (st_add stats) v (st_mul stats) (st_div stats)
  | mul => mkStats (st_add stats) (st_sub stats) v (st_div stats)
  | div => mkStats (st_add stats) (st_sub stats) (st_mul stats) v
  end.

Record LevelSpec : Set := mkLevelSpec {
  minA : option Z;
  maxA : Z;
  minB : option Z;
  maxB : Z;
  allowNegative : option bool
}.

Definition MAX_HISTORY : nat := 12.

(** [{ maxA: a, maxB: b }] *)
Definition specMax (a b : Z) : LevelSpec := mkLevelSpec None a None b None.

(** [{ minA: a0, maxA: a1, minB: b0, maxB: b1 }] *)
Definition specRange (a0 a1 b0 b1 : Z) : LevelSpec :=
  mkLevelSpec (Some a0) a1 (Some b0) b1 None.

Definition LEVELS (skill : SkillKey) : list LevelSpec :=
  match skill with
  | add =>
      [ specMax 10 10; specMax 20 20; specMax 30 30; specMax 50 50;
        specMax 75 75; specMax 100 100; specMax 150 150; specMax 250 250;
        specMax 500 500; specMax 1000 1000; specMax 1500 1500;
        specMax 2000 2000 ]
  | sub =>
      [ specMax 10 10; specMax 20 20; specMax 30 30; specMax 50 50;
        specMax 75 75; specMax 100 100; specMax 150 150; specMax 250 250;
        specMax 500 500; specMax 1000 1000; specMax 1500 1500;
        specMax 2000 2000 ]
  | mul =>
      [ specMax 5 5; specMax 9 9; specMax 12 12; specMax 15 15;
        specMax 20 20; specMax 25 25; specMax 30 30; specMax 40 40;
        specMax 50 50; specMax 60 60; specMax 75 75; specMax 90 90 ]
  | div =>
      [ specRange 1 5 0 5; specRange 1 9 0 9; specRange 1 12 0 12;
        specRange 2 15 0 12; specRange 2 20 0 15; specRange 2 25 0 20;
        specRange 3 30 0 25; specRange 3 40 0 30; specRange 4 50 0 40;
        specRange 5 60 0 50; specRange 6 75 0 60; specRange 8 90 0 70 ]
  end.

Definition MAX_LEVEL : Z := Z.of_nat (length (LEVELS add)).

Definition SKILL_LIST : list SkillKey := [add; sub; mul; div].

Record Question : Set := mkQuestion {
  q_id : string;
  q_text : string;
  q_answer : Z;
  q_skill : SkillKey;
  q_level : Z
}.

(** ** Helpers *)

(** [Math.min(Math.max(value, min), max)] *)
Definition clamp (value lo hi : Z) : Z := Z.min (Z.max value lo) hi.

(** [randomInt]: [r] is the value returned by [Math.random()], a fraction in
    [0, 1).  The bounds are integers, so [Math.ceil] and [Math.floor] leave
    them as they are. *)
Definition randomInt (r : Q) (min max : Z) : Z :=
  let safeMin := min in
  let safeMax := max in
  Qfloor (r * inject_Z (safeMax - safeMin + 1)) + safeMin.

(** [specs[clamp(level - 1, 0, specs.length - 1)]]; [None] stands for the
    [undefined] an index outside the array would give. *)
Definition getLevelSpec (skill : SkillKey) (level : Z) : option LevelSpec :=
  let specs := LEVELS skill in
  specs !! Z.to_nat (clamp (level - 1) 0 (Z.of_nat (length specs) - 1)).

Definition freshSkill : SkillStats := mkSkillStats 1 0 0 [].

Definition createDefaultStats : Stats :=
  mkStats freshSkill freshSkill freshSkill freshSkill.

(** ** Derived statistics *)

Definition countCorrect (h : list Result) : Z :=
  fold_left (fun total item => total + (if correct item then 1 else 0)) h 0.

Definition accuracyFromHistory (h : list Result) : Q :=
  if (length h =? 0)%nat then 0%Q
  else (inject_Z (countCorrect h) / inject_Z (Z.of_nat (length h)))%Q.

Definition getAccuracy (stats : SkillStats) : Q :=
  accuracyFromHistory (history stats).

Definition getTargetMs (level : Z) : Z :=
  let base := 6000 in
  let drop := 300 in
  clamp (base - level * drop) 2400 6000.

(** ** The leveling state machine *)

(** [xs.slice(-n)]: the last [n] elements. *)
Definition sliceLast {A : Type} (n : nat) (xs : list A) : list A :=
  drop (length xs - n) xs.

Definition updateStats (stats : Stats) (skill : SkillKey)
    (correct : bool) (ms : Z) : Stats :=
  let current := statsGet stats skill in
  let nextHistory :=
    sliceLast MAX_HISTORY (history current ++ [mkResult correct ms]) in
  let nextStreak := if correct then streak current + 1 else 0 in
  let nextMistakeStreak := if correct then 0 else mistakeStreak current + 1 in
  let levelMax := Z.of_nat (length (LEVELS skill)) in
  let nextLevel := level current in
  let leveledUp := false in
  let leveledDown := false in
  let '(nextLevel, leveledUp) :=
    if correct && (3 <=? nextStreak) && (ms <=? getTargetMs (level current))
    then
      let nextLevel := clamp (level current + 1) 1 levelMax in
      (nextLevel, negb (nextLevel =? level current))
    else (nextLevel, leveledUp) in
  let '(nextLevel, leveledDown) :=
    if negb correct && (2 <=? nextMistakeStreak)
    then
      let nextLevel := clamp (level current - 1) 1 levelMax in
      (nextLevel, negb (nextLevel =? level current))
    else (nextLevel, leveledDown) in
  statsSet stats skill
    {| level := nextLevel;
       streak := if correct && negb leveledUp then nextStreak else 0;
       mistakeStreak :=
         if negb correct && negb leveledDown then nextMistakeStreak else 0;
       history := nextHistory |}.

(** ** Skill selection *)

(** The score [getWeakestSkill] and [pickSkill] give a skill:
    [history.length === 0 ? 0.55 : accuracyFromHistory(history)].
    The quotient is kept exact.  On the histories [updateStats] produces (at
    most 12 entries) two different accuracies are at least 1/144 apart and
    none equals 0.55, so the order of the exact scores is the order of the
    rounded ones. *)
Definition skillScore (stats : Stats) (skill : SkillKey) : Q :=
  let h := history (statsGet stats skill) in
  if (length h =? 0)%nat then (55 # 100)%Q else accuracyFromHistory h.

(** Position in the fixed order add, sub, mul, div. *)
Definition skillIndex (skill : SkillKey) : nat :=
  match skill with
  | add => 0
  | sub => 1
  | mul => 2
  | div => 3
  end.

(** One turn of the [forEach] body over the pair of mutable locals
    [(weakest, weakestScore)]. *)
Definition weakestStep (stats : Stats) (acc : SkillKey * Q) (skill : SkillKey)
    : SkillKey * Q :=
  let '(weakest, weakestScore) := acc in
  let score := skillScore stats skill in
  if Qlt_le_dec score weakestScore then (skill, score)
  else (weakest, weakestScore).

Definition getWeakestSkill (stats : Stats) : SkillKey :=
  fst (fold_left (weakestStep stats) SKILL_LIST (hd add SKILL_LIST, 1%Q)).

(** ** The question generator *)

Record Options : Set := mkOptions { optAllowNegative : option bool }.

(** What one call of [generateQuestion] reads from its surroundings: the two
    [Math.random()] values of the operand draws, [Date.now()], and the
    hexadecimal digits [Math.random().toString(16).slice(2)] of the id. *)
Record Env : Set := mkEnv {
  rndA : Q;
  rndB : Q;
  clock : Z;
  rndHex : string
}.

(** [x ?? y] on a possibly missing value. *)
Definition orElse {A : Type} (x y : option A) : option A :=
  match x with
  | Some _ => x
  | None => y
  end.

Definition freshId (skill : SkillKey) (env : Env) : string :=
  skillName skill +:+ "-" +:+ pretty (clock env) +:+ "-" +:+ rndHex env.

(** [None] is the [TypeError] of reading a field of an [undefined] spec. *)
Definition generateQuestion (skill : SkillKey) (level : Z)
    (options : option Options) (env : Env) : option Question :=
  match getLevelSpec skill level with
  | None => None
  | Some spec =>
      let minA := default 0 (minA spec) in
      let minB := default 0 (minB spec) in
      let a := randomInt (rndA env) minA (maxA spec) in
      let b := randomInt (rndB env) minB (maxB spec) in
      if decide (skill = add) then
        Some {| q_id := freshId skill env;
                q_text := pretty a +:+ " + " +:+ pretty b;
                q_answer := a + b;
                q_skill := skill;
                q_level := level |}
      else if decide (skill = sub) then
        let allowNegative :=
          default false
            (orElse (options ≫= optAllowNegative) (allowNegative spec)) in
        let high := if allowNegative then a else Z.max a b in
        let low := if allowNegative then b else Z.min a b in
        Some {| q_id := freshId skill env;
                q_text := pretty high +:+ " - " +:+ pretty low;
                q_answer := high - low;
                q_skill := skill;
                q_level := level |}
      else if decide (skill = mul) then
        Some {| q_id := freshId skill env;
                q_text := pretty a +:+ " x " +:+ pretty b;
                q_answer := a * b;
                q_skill := skill;
                q_level := level |}
      else
        let divisor := Z.max 1 a in
        let quotient := b in
        let dividend := divisor * quotient in
        Some {| q_id := freshId skill env;
                q_text := pretty dividend +:+ " / " +:+ pretty divisor;
                q_answer := quotient;
                q_skill := skill;
                q_level := level |}
  end.

(** The [allowNegative] option as the caller passed it: [options?.allowNegative]. *)
Definition requestedNegative (options : option Options) : option bool :=
  options ≫= optAllowNegative.

(** The operand draws of a call, as [generateQuestion] computes them. *)
Definition drawA (spec : LevelSpec) (env : Env) : Z :=
  randomInt (rndA env) (default 0 (minA spec)) (maxA spec).

Definition drawB (spec : LevelSpec) (env : Env) : Z :=
  randomInt (rndB env) (default 0 (minB spec)) (maxB spec).

(** ** The mistake ledger *)

Record MistakeItem : Set := mkMistakeItem {
  m_id : string;
  m_text : string;
  m_answer : Z;
  m_skill : SkillKey;
  m_level : Z;
  misses : Z;
  lastMissedAt : Z
}.

Definition MAX_MISTAKES : nat := 50.

Definition makeMistakeId (question : Question) : string :=
  skillName (q_skill question) +:+ ":" +:+ q_text question.

(** [now] is the value of [Date.now()].  [list_find] returns the first index
    whose entry has the id together with that entry ([items.findIndex] and
    [next[existingIndex]]); [None] is the [-1] of [findIndex]. *)
Definition addMistakeEntry (now : Z) (items : list MistakeItem)
    (question : Question) : list MistakeItem :=
  let id := makeMistakeId question in
  match list_find (fun item => m_id item = id) items with
  | None =>
      take MAX_MISTAKES
        ({| m_id := id;
            m_text := q_text question;
            m_answer := q_answer question;
            m_skill := q_skill question;
            m_level := q_level question;
            misses := 1;
            lastMissedAt := now |} :: items)
  | Some (existingIndex, existing) =>
      let next := delete existingIndex items in
      take MAX_MISTAKES
        ({| m_id := m_id existing;
            m_text := m_text existing;
            m_answer := q_answer question;
            m_skill := m_skill existing;
            m_level := q_level question;
            misses := misses existing + 1;
            lastMissedAt := now |} :: next)
  end.

Definition removeMistakeEntry (items : list MistakeItem) (question : Question)
    : list MistakeItem :=
  filter (fun item => m_id item ≠ makeMistakeId question) items.

(** ** Reachable learner states *)

Inductive reachable : Stats -> Prop :=
  | reachable_default : reachable createDefaultStats
  | reachable_update stats skill correct ms :
      reachable stats -> reachable (updateStats stats skill correct ms).

(** The reading "exactly one of the two counters is nonzero". *)
Definition exactlyOneNonzero (x : SkillStats) : Prop :=
  (streak x <> 0 /\ mistakeStreak x = 0) \/
  (streak x = 0 /\ mistakeStreak x <> 0).

(** What every skill of a reachable state satisfies. *)
Definition skillInvariant (x : SkillStats) : Prop :=
  1 <= level x <= MAX_LEVEL /\
  (length (history x) <= MAX_HISTORY)%nat /\
  0 <= streak x /\
  0 <= mistakeStreak x /\
  (2 <= level x -> mistakeStreak x <= 1) /\
  (0 < streak x -> exists t, last (history x) = Some (mkResult true t)) /\
  (0 < mistakeStreak x -> exists t, last (history x) = Some (mkResult false t)).

(** Feeding a list of results for one skill, oldest first. *)
Definition feed (stats : Stats) (skill : SkillKey) (results : list Result)
    : Stats :=
  fold_left (fun s r => updateStats s skill (correct r) (ms r)) results stats.

(** ** Average time and weighted skill choice *)

Definition totalMs (h : list Result) : Z :=
  fold_left (fun sum item => sum + ms item) h 0.

Definition getAverageMs (stats : SkillStats) : Q :=
  if (length (history stats) =? 0)%nat then 0%Q
  else (inject_Z (totalMs (history stats))
        / inject_Z (Z.of_nat (length (history stats))))%Q.

(** [SKILL_LIST.map(...)] of [pickSkill]: each skill with its weight
    [Math.max(0.15, 1 - accuracy)], kept exact like the scores. *)
Definition pickWeighted (stats : Stats) : list (SkillKey * Q) :=
  map (fun skill =>
         let accuracy := skillScore stats skill in
         let weight := Qmax (15 # 100) (1 - accuracy) in
         (skill, weight))
      SKILL_LIST.

(** The [for ... of] loop of [pickSkill]; [None] when the loop ends without
    a [return]. *)
Fixpoint pickLoop (weighted : list (SkillKey * Q)) (roll : Q)
    : option SkillKey :=
  match weighted with
  | [] => None
  | (skill, weight) :: rest =>
      let roll := (roll - weight)%Q in
      if Qle_bool roll 0 then Some skill else pickLoop rest roll
  end.

(** [r] is the value of [Math.random()]. *)
Definition pickSkill (stats : Stats) (r : Q) : SkillKey :=
  let weighted := pickWeighted stats in
  let total := fold_left (fun sum item => (sum + snd item)%Q) weighted 0%Q in
  let roll := (r * total)%Q in
  default add (pickLoop weighted roll).

(** The weight [pickSkill] gives a skill and the sum of the four weights,
    for stating its properties. *)
Definition skillWeight (stats : Stats) (skill : SkillKey) : Q :=
  Qmax (15 # 100) (1 - skillScore stats skill).

Definition totalWeight (stats : Stats) : Q :=
  (skillWeight stats add + skillWeight stats sub
   + skillWeight stats mul + skillWeight stats div)%Q.

(** ** Creating the next question ([app/page.tsx]) *)

Inductive Mode : Set := skillMode (skill : SkillKey) | mix.

(** [rPick] is the [Math.random()] of [pickSkill], [env] what
    [generateQuestion] reads. *)
Definition createQuestion (selectedMode : Mode) (snapshot : Stats)
    (negativeLevel : Z) (rPick : Q) (env : Env) : option Question :=
  let skill :=
    match selectedMode with
    | mix => pickSkill snapshot rPick
    | skillMode k => k
    end in
  let level := level (statsGet snapshot skill) in
  let allowNegative :=
    bool_decide (skill = sub) && (0 <? negativeLevel)
    && (negativeLevel <=? level) in
  generateQuestion skill level (Some (mkOptions (Some allowNegative))) env.

(** ** Practising the ledger *)

(** [now] and [hex] are [Date.now()] and the digits of
    [Math.random().toString(16).slice(2)]. *)
Definition buildMistakeQuestion (item : MistakeItem) (now : Z) (hex : string)
    : Question :=
  {| q_id := m_id item +:+ "-" +:+ pretty now +:+ "-" +:+ hex;
     q_text := m_text item;
     q_answer := m_answer item;
     q_skill := m_skill item;
     q_level := m_level item |}.

(** The comparator of [startMistakeSession]: more misses first, then the
    later miss first. *)
Definition mistakeOrder (a b : MistakeItem) : Z :=
  if negb (misses b =? misses a) then misses b - misses a
  else lastMissedAt b - lastMissedAt a.

(** [Array.prototype.sort] with a comparator is a stable sort: an element
    goes before the elements it does not compare greater than, and equal
    elements keep their order.  It is computed here by insertion from the
    right. *)
Fixpoint insertBy {A : Type} (cmp : A -> A -> Z) (x : A) (sorted : list A)
    : list A :=
  match sorted with
  | [] => [x]
  | y :: rest =>
      if cmp x y <=? 0 then x :: y :: rest else y :: insertBy cmp x rest
  end.

Definition sortBy {A : Type} (cmp : A -> A -> Z) (xs : list A) : list A :=
  foldr (insertBy cmp) [] xs.

(** [xs.slice(0, n)]: a negative [n] counts from the end. *)
Definition sliceTo {A : Type} (n : Z) (xs : list A) : list A :=
  if n <? 0 then take (length xs - Z.to_nat (- n)) xs
  else take (Z.to_nat n) xs.

(** What [startMistakeSession] computes: [None] when it returns without
    starting a session, else the practice queue and the first question. *)
Definition startMistakeSession (mistakes : list MistakeItem)
    (questionCount : Z) (now : Z) (hex : string)
    : option (list MistakeItem * Question) :=
  if (length mistakes =? 0)%nat then None
  else
    let ordered := sortBy mistakeOrder mistakes in
    let queue := sliceTo questionCount ordered in
    match queue with
    | [] => None
    | first :: _ => Some (queue, buildMistakeQuestion first now hex)
    end.

(** [a] goes no later than [b] in the practice queue. *)
Definition practisedBefore (a b : MistakeItem) : Prop :=
  misses b < misses a \/
  (misses b = misses a /\ lastMissedAt b <= lastMissedAt a).

(** ** Well-formed ledgers *)

(** An entry whose id is the key of its own skill and text, as
    [addMistakeEntry] creates them. *)
Definition wellKeyed (item : MistakeItem) : Prop :=
  m_id item = skillName (m_skill item) +:+ ":" +:+ m_text item.

Definition ledgerInvariant (items : list MistakeItem) : Prop :=
  (length items <= MAX_MISTAKES)%nat /\
  NoDup (m_id <$> items) /\
  Forall (fun item => wellKeyed item /\ 1 <= misses item) items.

(** The ledgers the application builds: from the empty one by misses and
    by graduations. *)
Inductive ledgerReachable : list MistakeItem -> Prop :=
  | ledger_empty : ledgerReachable []
  | ledger_add now items question :
      ledgerReachable items ->
      ledgerReachable (addMistakeEntry now items question)
  | ledger_remove items question :
      ledgerReachable items ->
      ledgerReachable (removeMistakeEntry items question).

(** ** Settings *)

Record Settings : Set := mkSettings {
  questionCount : Z;
  timeLimitSeconds : Z;
  negativeLevel : Z
}.

Definition DEFAULT_SETTINGS : Settings := mkSettings 10 10 0.

(** The updaters passed to [setSettings]. *)
Definition adjustQuestionCount (delta : Z) (prev : Settings) : Settings :=
  let next := Z.min (Z.max (questionCount prev + delta) 5) 50 in
  mkSettings next (timeLimitSeconds prev) (negativeLevel prev).

Definition adjustTimeLimit (delta : Z) (prev : Settings) : Settings :=
  let next := Z.min (Z.max (timeLimitSeconds prev + delta) 5) 60 in
  mkSettings (questionCount prev) next (negativeLevel prev).

Definition adjustNegativeLevel (delta : Z) (prev : Settings) : Settings :=
  let next := Z.min (Z.max (negativeLevel prev + delta) 0) MAX_LEVEL in
  mkSettings (questionCount prev) (timeLimitSeconds prev) next.

(** The settings the screen can reach with its three steppers. *)
Inductive settingsReachable : Settings -> Prop :=
  | settings_default : settingsReachable DEFAULT_SETTINGS
  | settings_count delta prev :
      settingsReachable prev -> settingsReachable (adjustQuestionCount delta prev)
  | settings_time delta prev :
      settingsReachable prev -> settingsReachable (adjustTimeLimit delta prev)
  | settings_negative delta prev :
      settingsReachable prev -> settingsReachable (adjustNegativeLevel delta prev).

(** ** Recording a result ([applyResult]) *)

Inductive SessionKind : Set := standard | mistakesKind.

Record Feedback : Set := mkFeedback {
  fb_correct : bool;
  fb_expected : Z;
  fb_ms : Z;
  fb_skill : SkillKey;
  fb_level : Z;
  fb_timedOut : bool
}.

Record Session : Set := mkSession { s_correct : Z; s_wrong : Z }.

(** The part of the component state [applyResult] reads or writes;
    [app_stats] is [statsRef.current], which the component keeps equal to
    its [stats]. *)
Record App : Set := mkApp {
  app_stats : Stats;
  app_question : option Question;
  app_sessionKind : SessionKind;
  app_mistakes : list MistakeItem;
  app_session : Session;
  app_feedback : option Feedback;
  app_showTip : bool;
  app_error : option string;
  app_answered : bool
}.

(** [now] is the [Date.now()] of [addMistakeEntry]. *)
Definition applyResult (now : Z) (correct : bool) (elapsed : Z)
    (timedOut : bool) (st : App) : App :=
  match app_question st with
  | None => st
  | Some question =>
      let nextStats :=
        updateStats (app_stats st) (q_skill question) correct elapsed in
      {| app_stats := nextStats;
         app_question := app_question st;
         app_sessionKind := app_sessionKind st;
         app_mistakes :=
           if negb correct then addMistakeEntry now (app_mistakes st) question
           else
             match app_sessionKind st with
             | mistakesKind => removeMistakeEntry (app_mistakes st) question
             | standard => app_mistakes st
             end;
         app_session :=
           {| s_correct :=
                s_correct (app_session st) + (if correct then 1 else 0);
              s_wrong :=
                s_wrong (app_session st) + (if correct then 0 else 1) |};
         app_feedback :=
           Some {| fb_correct := correct;
                   fb_expected := q_answer question;
                   fb_ms := elapsed;
                   fb_skill := q_skill question;
                   fb_level := q_level question;
                   fb_timedOut := timedOut |};
         app_showTip := if negb correct then true else app_showTip st;
         app_error := None;
         app_answered := true |}
  end.

(** Whether the keypad offers the minus key for the current question. *)
Definition allowNegativeAnswer (question : option Question)
    (settings : Settings) : bool :=
  match question with
  | None => false
  | Some q =>
      bool_decide (q_skill q = sub) && (0 <? negativeLevel settings)
      && (negativeLevel settings <=? q_level q)
  end.

(** ** Tip helpers *)

(** [Math.round(value / base) * base]; [Math.round] is the floor of its
    argument plus one half. *)
Definition roundToBase (value base : Z) : Z :=
  Qfloor (inject_Z value / inject_Z base + (1 # 2)) * base.

(** The [while (y !== 0)] loop of [gcd] on the absolute values; [%] on
    non-negative numbers is the truncating remainder. *)
Equations? gcdLoop (x y : Z) : Z by wf (Z.to_nat (Z.abs y)) lt :=
  gcdLoop x y with Z.eq_dec y 0 := {
    | left _ => x
    | right _ => gcdLoop y (Z.rem x y) }.
Proof.
  pose proof (Z.rem_bound_abs x y ltac:(assumption)). lia.
Qed.

Definition gcd (a b : Z) : Z := gcdLoop (Z.abs a) (Z.abs b).

(** * Properties *)

(** ** Basic facts about the table and the [Stats] object *)

Lemma LEVELS_length skill : length (LEVELS skill) = 12%nat.
Proof. by destruct skill. Qed.

Lemma MAX_LEVEL_eq : MAX_LEVEL = 12.
Proof. reflexivity. Qed.

Lemma levelMax_uniform skill : Z.of_nat (length (LEVELS skill)) = MAX_LEVEL.
Proof. by rewrite LEVELS_length. Qed.

Lemma statsGet_set_eq stats skill v : statsGet (statsSet stats skill v) skill = v.
Proof. by destruct skill. Qed.

Lemma statsGet_set_ne stats skill other v :
  other ≠ skill -> statsGet (statsSet stats skill v) other = statsGet stats other.
Proof. by destruct skill, other. Qed.

Lemma clamp_range value lo hi : lo <= hi -> lo <= clamp value lo hi <= hi.
Proof. unfold clamp. lia. Qed.

Lemma clamp_id value lo hi : lo <= value <= hi -> clamp value lo hi = value.
Proof. unfold clamp. lia. Qed.


(** Three fast correct answers at level 1 of "mul". *)
Example leveling_scenario :
  let s := feed createDefaultStats mul
             [mkResult true 1000; mkResult true 1000; mkResult true 1000] in
  getTargetMs 1 = 5700 /\ level (st_mul s) = 2 /\ streak (st_mul s) = 0.
Proof. vm_compute. auto. Qed.

(** Case analysis on the integer tests of [updateStats]. *)
Ltac ztests :=
  repeat match goal with
    | |- context [?a <=? ?b] => destruct (Z.leb_spec a b)
    | |- context [?a =? ?b] => destruct (Z.eqb_spec a b)
    end.

(** The updated skill, field by field. *)
Lemma updateStats_history stats skill c t :
  history (statsGet (updateStats stats skill c t) skill)
  = sliceLast MAX_HISTORY (history (statsGet stats skill) ++ [mkResult c t]).
Proof.
  unfold updateStats.
  repeat match goal with |- context [if ?b then _ else _] => destruct b end;
    by rewrite statsGet_set_eq.
Qed.

Lemma updateStats_correct stats skill t :
  let cur := statsGet stats skill in
  let new := statsGet (updateStats stats skill true t) skill in
  mistakeStreak new = 0 /\
  (streak cur + 1 < 3 \/ getTargetMs (level cur) < t ->
     level new = level cur /\ streak new = streak cur + 1) /\
  (3 <= streak cur + 1 -> t <= getTargetMs (level cur) ->
     level new = clamp (level cur + 1) 1 MAX_LEVEL /\
     streak new = if decide (level new = level cur) then streak cur + 1 else 0).
Proof.
  unfold updateStats. rewrite levelMax_uniform. cbn beta iota zeta.
  set (cur := statsGet stats skill). simpl andb. simpl negb.
  ztests; simpl; rewrite statsGet_set_eq; simpl;
    repeat split; try lia; intros; try lia;
    try (case_decide; (reflexivity || lia)).
Qed.

Lemma updateStats_wrong stats skill t :
  let cur := statsGet stats skill in
  let new := statsGet (updateStats stats skill false t) skill in
  streak new = 0 /\
  (mistakeStreak cur + 1 < 2 ->
     level new = level cur /\ mistakeStreak new = mistakeStreak cur + 1) /\
  (2 <= mistakeStreak cur + 1 ->
     level new = clamp (level cur - 1) 1 MAX_LEVEL /\
     mistakeStreak new =
       if decide (level new = level cur) then mistakeStreak cur + 1 else 0).
Proof.
  unfold updateStats. rewrite levelMax_uniform. cbn beta iota zeta.
  set (cur := statsGet stats skill). simpl andb. simpl negb.
  ztests; simpl; rewrite statsGet_set_eq; simpl;
    repeat split; try lia; intros; try lia;
    try (case_decide; (reflexivity || lia)).
Qed.

(** ** Leveling up *)

(** C1.  A skill whose streak is 0 and whose level L is below MAX_LEVEL
    (levels start at 1), fed three correct results each within
    getTargetMs(L), ends at level exactly L + 1 with streak 0: the first two
    results leave the level at L, the third one raises it once. *)
Theorem three_fast_correct_level_up stats skill L t1 t2 t3 :
  streak (statsGet stats skill) = 0 ->
  level (statsGet stats skill) = L ->
  1 <= L < MAX_LEVEL ->
  t1 <= getTargetMs L -> t2 <= getTargetMs L -> t3 <= getTargetMs L ->
  let s1 := updateStats stats skill true t1 in
  let s2 := updateStats s1 skill true t2 in
  let s3 := updateStats s2 skill true t3 in
  level (statsGet s1 skill) = L /\
  level (statsGet s2 skill) = L /\
  level (statsGet s3 skill) = L + 1 /\
  streak (statsGet s3 skill) = 0.
Proof.
  intros Hstreak Hlevel HL Ht1 Ht2 Ht3 s1 s2 s3.
  rewrite MAX_LEVEL_eq in HL.
  destruct (updateStats_correct stats skill t1) as (_ & Hstay1 & _).
  destruct Hstay1 as [Hl1 Hs1]; [lia |].
  change (updateStats stats skill true t1) with s1 in Hl1, Hs1.
  rewrite Hlevel in Hl1. rewrite Hstreak in Hs1.
  destruct (updateStats_correct s1 skill t2) as (_ & Hstay2 & _).
  destruct Hstay2 as [Hl2 Hs2]; [lia |].
  change (updateStats s1 skill true t2) with s2 in Hl2, Hs2.
  rewrite Hl1 in Hl2. rewrite Hs1 in Hs2.
  destruct (updateStats_correct s2 skill t3) as (_ & _ & Hup).
  destruct Hup as [Hl3 Hs3]; [lia | by rewrite Hl2 |].
  change (updateStats s2 skill true t3) with s3 in Hl3, Hs3.
  rewrite Hl2, MAX_LEVEL_eq, clamp_id in Hl3 by lia.
  repeat split; [exact Hl1 | exact Hl2 | exact Hl3 |].
  rewrite Hs3. case_decide; lia.
Qed.

Lemma three_fast_correct_level_up_witness :
  let s := feed createDefaultStats mul
             [mkResult true 1000; mkResult true 5700; mkResult true 20] in
  level (statsGet s mul) = 2 /\ streak (statsGet s mul) = 0.
Proof.
  pose proof (three_fast_correct_level_up createDefaultStats mul 1 1000 5700 20)
    as H.
  destruct H as (_ & _ & Hl & Hs);
    [reflexivity | reflexivity | vm_compute; split; congruence
    | vm_compute; congruence | vm_compute; congruence | vm_compute; congruence |].
  split; [exact Hl | exact Hs].
Defined.

(** ** Leveling down *)

(** At level 1 two misses in a row leave the level at 1 (the clamp) and, as
    nothing changed, the mistake streak is kept at 2 instead of being reset:
    "decremented by exactly one, mistakeStreak reset to 0" does not hold on
    the fresh state. *)
Lemma two_wrong_at_level_one_counterexample :
  let s2 := updateStats (updateStats createDefaultStats add false 900)
              add false 900 in
  mistakeStreak (statsGet createDefaultStats add) = 0 /\
  level (statsGet createDefaultStats add) = 1 /\
  level (statsGet s2 add) = 1 /\
  mistakeStreak (statsGet s2 add) = 2 /\
  ~ (level (statsGet s2 add) = level (statsGet createDefaultStats add) - 1 /\
     mistakeStreak (statsGet s2 add) = 0).
Proof. vm_compute. repeat split; try reflexivity. intros [H _]. discriminate H. Qed.

(** C2 (amended).  A skill whose mistake streak is 0 and whose level L is in
    [1, MAX_LEVEL], fed two incorrect results: when L >= 2 the level becomes
    L - 1 and the mistake streak 0; when L = 1 the level stays 1 and the
    mistake streak is 2. *)
Theorem two_wrong_level_down stats skill L t1 t2 :
  mistakeStreak (statsGet stats skill) = 0 ->
  level (statsGet stats skill) = L ->
  1 <= L <= MAX_LEVEL ->
  let s1 := updateStats stats skill false t1 in
  let s2 := updateStats s1 skill false t2 in
  level (statsGet s1 skill) = L /\
  (2 <= L ->
     level (statsGet s2 skill) = L - 1 /\ mistakeStreak (statsGet s2 skill) = 0) /\
  (L = 1 ->
     level (statsGet s2 skill) = 1 /\ mistakeStreak (statsGet s2 skill) = 2).
Proof.
  intros Hmist Hlevel HL s1 s2.
  rewrite MAX_LEVEL_eq in HL.
  destruct (updateStats_wrong stats skill t1) as (_ & Hstay & _).
  destruct Hstay as [Hl1 Hm1]; [lia |].
  change (updateStats stats skill false t1) with s1 in Hl1, Hm1.
  rewrite Hlevel in Hl1. rewrite Hmist in Hm1.
  destruct (updateStats_wrong s1 skill t2) as (_ & _ & Hdown).
  destruct Hdown as [Hl2 Hm2]; [lia |].
  change (updateStats s1 skill false t2) with s2 in Hl2, Hm2.
  rewrite Hl1, MAX_LEVEL_eq in Hl2. rewrite Hl1, Hm1 in Hm2.
  split; [exact Hl1 |]. split; intros HL'.
  - rewrite clamp_id in Hl2 by lia. split; [exact Hl2 |].
    rewrite Hm2. case_decide; lia.
  - rewrite HL' in Hl2, Hm2. split; [exact Hl2 |].
    rewrite Hm2. case_decide; [reflexivity | by exfalso].
Qed.

Lemma two_wrong_level_down_witness :
  let s := feed (feed createDefaultStats div
                   [mkResult true 100; mkResult true 100; mkResult true 100])
             div [mkResult false 7000; mkResult false 7000] in
  level (statsGet s div) = 1 /\ mistakeStreak (statsGet s div) = 0.
Proof.
  pose proof (two_wrong_level_down
    (feed createDefaultStats div
       [mkResult true 100; mkResult true 100; mkResult true 100])
    div 2 7000 7000) as H.
  destruct H as (_ & Hdown & _);
    [reflexivity | reflexivity | vm_compute; split; congruence |].
  apply Hdown. lia.
Defined.

(** ** The two streak counters *)

(** The fresh state is reachable (by the empty sequence of updates) and has
    both counters at 0; the same holds right after a level-up. *)
Lemma both_counters_zero_counterexample :
  reachable createDefaultStats /\
  ~ exactlyOneNonzero (statsGet createDefaultStats add) /\
  (let s := feed createDefaultStats add
              [mkResult true 100; mkResult true 100; mkResult true 100] in
   reachable s /\ ~ exactlyOneNonzero (statsGet s add)).
Proof.
  split; [constructor |]. split.
  - intros [[H _] | [_ H]]; by apply H.
  - split; [do 3 constructor; constructor |].
    intros [[H _] | [_ H]]; by apply H.
Qed.

Lemma updateStats_frame stats skill other c t :
  other ≠ skill ->
  statsGet (updateStats stats skill c t) other = statsGet stats other.
Proof.
  intros Hne. unfold updateStats.
  repeat match goal with |- context [if ?b then _ else _] => destruct b end;
    by apply statsGet_set_ne.
Qed.

(** C3 (amended).  In every state reachable from createDefaultStats by
    updateStats calls, for each skill at most one of streak and mistakeStreak
    is nonzero: one of the two is 0. *)
Theorem reachable_one_counter_zero stats :
  reachable stats ->
  forall skill,
    streak (statsGet stats skill) = 0 \/ mistakeStreak (statsGet stats skill) = 0.
Proof.
  induction 1 as [| stats k c t _ IH]; intros skill.
  - left. by destruct skill.
  - destruct (decide (skill = k)) as [-> | Hne].
    + destruct c.
      * right. apply (updateStats_correct stats k t).
      * left. apply (updateStats_wrong stats k t).
    + rewrite updateStats_frame by done. apply IH.
Qed.

Lemma reachable_one_counter_zero_witness :
  let s := updateStats (updateStats createDefaultStats sub true 10) mul false 10 in
  (streak (statsGet s sub) = 0 \/ mistakeStreak (statsGet s sub) = 0) /\
  (streak (statsGet s mul) = 0 \/ mistakeStreak (statsGet s mul) = 0).
Proof.
  split; apply reachable_one_counter_zero; do 2 constructor; constructor.
Defined.

(** ** Frame *)

(** C10.  updateStats(s, k, correct, ms) maps every skill other than k to
    exactly the SkillStats it has in s. *)
Theorem updateStats_other_skills_unchanged stats k c t other :
  other <> k ->
  statsGet (updateStats stats k c t) other = statsGet stats other.
Proof. apply updateStats_frame. Qed.

Lemma updateStats_other_skills_unchanged_witness :
  statsGet (updateStats createDefaultStats mul true 1000) div
  = statsGet createDefaultStats div.
Proof. apply updateStats_other_skills_unchanged. discriminate. Defined.

(** ** The level stays in range *)

(** C7.  When a skill's level is in [1, MAX_LEVEL], its level after
    updateStats is in [1, MAX_LEVEL] too, whichever skill is updated; at
    MAX_LEVEL a correct result leaves the updated skill at MAX_LEVEL and at
    level 1 an incorrect result leaves it at 1. *)
Theorem updateStats_level_in_range stats skill c t :
  (forall k,
     1 <= level (statsGet stats k) <= MAX_LEVEL ->
     1 <= level (statsGet (updateStats stats skill c t) k) <= MAX_LEVEL) /\
  (level (statsGet stats skill) = MAX_LEVEL -> c = true ->
     level (statsGet (updateStats stats skill c t) skill) = MAX_LEVEL) /\
  (level (statsGet stats skill) = 1 -> c = false ->
     level (statsGet (updateStats stats skill c t) skill) = 1).
Proof.
  assert (forall b, 1 <= clamp b 1 MAX_LEVEL <= MAX_LEVEL) as Hclamp.
  { intros b. apply clamp_range. by rewrite MAX_LEVEL_eq. }
  pose proof (updateStats_correct stats skill t) as (_ & Hca & Hcb).
  pose proof (updateStats_wrong stats skill t) as (_ & Hwa & Hwb).
  cbv zeta in Hca, Hcb, Hwa, Hwb.
  set (cur := statsGet stats skill) in *.
  assert (level (statsGet (updateStats stats skill c t) skill) = level cur \/
          (c = true /\ level (statsGet (updateStats stats skill c t) skill)
                       = clamp (level cur + 1) 1 MAX_LEVEL) \/
          (c = false /\ level (statsGet (updateStats stats skill c t) skill)
                        = clamp (level cur - 1) 1 MAX_LEVEL)) as Hcases.
  { destruct c.
    - destruct (Z_lt_le_dec (streak cur + 1) 3) as [Hs | Hs];
        [left; apply Hca; lia |].
      destruct (Z_lt_le_dec (getTargetMs (level cur)) t) as [Ht | Ht];
        [left; apply Hca; lia |].
      right; left. split; [done |]. by apply Hcb.
    - destruct (Z_lt_le_dec (mistakeStreak cur + 1) 2) as [Hs | Hs];
        [left; apply Hwa; lia |].
      right; right. split; [done |]. by apply Hwb. }
  split; [| split].
  - intros k Hk. destruct (decide (k = skill)) as [-> | Hne].
    + fold cur in Hk.
      destruct Hcases as [-> | [[_ ->] | [_ ->]]]; [exact Hk | apply Hclamp ..].
    + by rewrite updateStats_frame.
  - intros Hmax ->.
    destruct Hcases as [-> | [[_ ->] | [? _]]]; [exact Hmax | | done].
    rewrite Hmax, MAX_LEVEL_eq. reflexivity.
  - intros Hone ->.
    destruct Hcases as [-> | [[? _] | [_ ->]]]; [exact Hone | done |].
    rewrite Hone, MAX_LEVEL_eq. reflexivity.
Qed.

Lemma updateStats_level_in_range_witness :
  let top := statsSet createDefaultStats mul (mkSkillStats 12 2 0 []) in
  level (statsGet (updateStats top mul true 100) mul) = 12 /\
  level (statsGet (updateStats createDefaultStats mul false 100) mul) = 1 /\
  1 <= level (statsGet (updateStats top mul true 100) add) <= 12.
Proof.
  intros top.
  destruct (updateStats_level_in_range top mul true 100) as (Hr & Hmax & _).
  destruct (updateStats_level_in_range createDefaultStats mul false 100)
    as (_ & _ & Hone).
  split; [apply Hmax; reflexivity |].
  split; [apply Hone; reflexivity |].
  apply (Hr add). vm_compute. split; congruence.
Defined.

(** ** The rolling history *)

Lemma sliceLast_snoc {A : Type} (n : nat) (xs : list A) (x : A) :
  sliceLast (S n) (xs ++ [x]) = sliceLast n xs ++ [x].
Proof.
  unfold sliceLast. rewrite length_app. simpl.
  replace (length xs + 1 - S n)%nat with (length xs - n)%nat by lia.
  rewrite drop_app_le by lia. reflexivity.
Qed.

Lemma sliceLast_length {A : Type} (n : nat) (xs : list A) :
  length (sliceLast n xs) = Nat.min n (length xs).
Proof. unfold sliceLast. rewrite length_drop. lia. Qed.

(** C6.  Whatever the length of the input history, the history returned by
    updateStats has at most 12 entries and ends with the new result; it keeps
    the 11 newest old entries before it, so a full history of 12 loses its
    oldest entry and a shorter one loses nothing. *)
Theorem updateStats_history_bounded_fifo stats skill c t :
  let old := history (statsGet stats skill) in
  let new := history (statsGet (updateStats stats skill c t) skill) in
  (length new <= 12)%nat /\
  length new = Nat.min 12 (length old + 1) /\
  new = drop (length old - 11) old ++ [mkResult c t] /\
  (forall oldest rest,
     old = oldest :: rest -> length old = 12%nat ->
     new = rest ++ [mkResult c t]) /\
  ((length old < 12)%nat -> new = old ++ [mkResult c t]).
Proof.
  intros old new.
  assert (new = sliceLast 11 old ++ [mkResult c t]) as Hnew.
  { unfold new. rewrite updateStats_history. apply sliceLast_snoc. }
  assert (length new = Nat.min 12 (length old + 1)) as Hlen.
  { rewrite Hnew, length_app, sliceLast_length.
    change (length [mkResult c t]) with 1%nat. lia. }
  split; [lia |]. split; [exact Hlen |]. split; [exact Hnew |]. split.
  - intros oldest rest Hold Hfull. rewrite Hnew. unfold sliceLast.
    rewrite Hfull, Hold. reflexivity.
  - intros Hshort. rewrite Hnew. unfold sliceLast.
    replace (length old - 11)%nat with 0%nat by lia. reflexivity.
Qed.

Lemma updateStats_history_bounded_fifo_witness :
  let full := map (fun n => mkResult true (Z.of_nat n)) (seq 0 12) in
  let stats := statsSet createDefaultStats sub (mkSkillStats 3 0 0 full) in
  history (statsGet (updateStats stats sub false 77) sub)
  = map (fun n => mkResult true (Z.of_nat n)) (seq 1 11) ++ [mkResult false 77]
  /\ history (statsGet (updateStats createDefaultStats sub false 77) sub)
     = [mkResult false 77].
Proof.
  intros full stats. split.
  - destruct (updateStats_history_bounded_fifo stats sub false 77)
      as (_ & _ & _ & Hfull & _).
    apply (Hfull (mkResult true 0)); reflexivity.
  - destruct (updateStats_history_bounded_fifo createDefaultStats sub false 77)
      as (_ & _ & _ & _ & Hshort).
    apply Hshort. vm_compute. lia.
Defined.

(** ** The level table and the operand draws *)

Lemma getLevelSpec_total skill lvl :
  exists spec, getLevelSpec skill lvl = Some spec /\ spec ∈ LEVELS skill.
Proof.
  unfold getLevelSpec.
  destruct (lookup_lt_is_Some_2 (LEVELS skill)
              (Z.to_nat (clamp (lvl - 1) 0 (Z.of_nat (length (LEVELS skill)) - 1))))
    as [spec Hspec].
  - rewrite LEVELS_length. unfold clamp. lia.
  - exists spec. split; [exact Hspec |]. by eapply list_elem_of_lookup_2.
Qed.

Lemma getLevelSpec_clamps skill :
  getLevelSpec skill 0 = getLevelSpec skill 1 /\
  getLevelSpec skill 999 = getLevelSpec skill MAX_LEVEL.
Proof. by destruct skill. Qed.

Lemma LEVELS_no_negative_flag skill spec :
  spec ∈ LEVELS skill -> allowNegative spec = None.
Proof.
  revert spec. apply Forall_forall.
  destruct skill; repeat constructor.
Qed.

Lemma LEVELS_bounds_valid skill spec :
  spec ∈ LEVELS skill ->
  default 0 (minA spec) <= maxA spec /\ default 0 (minB spec) <= maxB spec /\
  0 <= default 0 (minA spec) /\ 0 <= default 0 (minB spec).
Proof.
  revert spec. apply Forall_forall.
  destruct skill; repeat constructor; simpl; lia.
Qed.

Lemma LEVELS_div_divisor_positive spec :
  spec ∈ LEVELS div -> 1 <= default 0 (minA spec).
Proof.
  revert spec. apply Forall_forall. repeat constructor; simpl; lia.
Qed.

(** A draw lies within its inclusive bounds when [Math.random()] is in
    [0, 1). *)
Lemma randomInt_range (r : Q) (lo hi : Z) :
  (0 <= r)%Q -> (r < 1)%Q -> lo <= hi -> lo <= randomInt r lo hi <= hi.
Proof.
  intros Hr0 Hr1 Hle. unfold randomInt.
  set (n := hi - lo + 1).
  assert (0 < inject_Z n)%Q as Hn.
  { change 0%Q with (inject_Z 0). rewrite <- Zlt_Qlt. lia. }
  assert (0 <= r * inject_Z n)%Q as Hlow by (apply Qmult_le_0_compat; lra).
  assert (r * inject_Z n < inject_Z n)%Q as Hhigh.
  { rewrite <- (Qmult_1_l (inject_Z n)) at 2.
    apply Qmult_lt_compat_r; assumption. }
  assert (0 <= Qfloor (r * inject_Z n)) as Hf0.
  { change 0 with (Qfloor (inject_Z 0)). by apply Qfloor_resp_le. }
  assert (Qfloor (r * inject_Z n) < n) as Hfn.
  { rewrite Zlt_Qlt. eapply Qle_lt_trans; [apply Qfloor_le | exact Hhigh]. }
  lia.
Qed.

(** ** Division questions *)

(** C4.  Every "div" question, whatever the level, the options and the
    operand draws: the divisor max(1, A) is at least 1, the answer is the
    quotient B, the text is "dividend / divisor" with
    dividend = divisor * quotient, so answer * divisor = dividend and the
    division leaves no remainder. *)
Theorem generateQuestion_div_exact lvl options env :
  exists spec q,
    getLevelSpec div lvl = Some spec /\
    generateQuestion div lvl options env = Some q /\
    let divisor := Z.max 1 (drawA spec env) in
    let quotient := drawB spec env in
    let dividend := divisor * quotient in
    1 <= divisor /\
    q_answer q = quotient /\
    q_text q = pretty dividend +:+ " / " +:+ pretty divisor /\
    q_answer q * divisor = dividend /\
    dividend mod divisor = 0 /\
    dividend / divisor = q_answer q.
Proof.
  destruct (getLevelSpec_total div lvl) as (spec & Hspec & _).
  unfold generateQuestion. rewrite Hspec.
  repeat (case_decide; [discriminate |]).
  eexists spec, _. split; [reflexivity |]. split; [reflexivity |].
  cbn [q_answer q_text]. fold (drawA spec env). fold (drawB spec env).
  set (divisor := Z.max 1 (drawA spec env)).
  assert (1 <= divisor) as Hpos by (unfold divisor; lia).
  repeat split.
  - exact Hpos.
  - apply Z.mul_comm.
  - rewrite Z.mul_comm. apply Z.mod_mul. lia.
  - rewrite Z.mul_comm. apply Z.div_mul. lia.
Qed.

(** With draws from [Math.random()] in [0, 1) the divisor is the operand A
    itself, within the bounds of the level, and the quotient is within its
    bounds. *)
Lemma generateQuestion_div_operands lvl spec env :
  getLevelSpec div lvl = Some spec ->
  (0 <= rndA env)%Q -> (rndA env < 1)%Q ->
  (0 <= rndB env)%Q -> (rndB env < 1)%Q ->
  Z.max 1 (drawA spec env) = drawA spec env /\
  default 0 (minA spec) <= drawA spec env <= maxA spec /\
  default 0 (minB spec) <= drawB spec env <= maxB spec.
Proof.
  intros Hspec HA0 HA1 HB0 HB1.
  assert (spec ∈ LEVELS div) as Hin.
  { destruct (getLevelSpec_total div lvl) as (spec' & Hspec' & Hin').
    congruence. }
  pose proof (LEVELS_bounds_valid div spec Hin) as (HbA & HbB & _ & _).
  pose proof (LEVELS_div_divisor_positive spec Hin) as Hpos.
  pose proof (randomInt_range (rndA env) _ _ HA0 HA1 HbA) as HrA.
  pose proof (randomInt_range (rndB env) _ _ HB0 HB1 HbB) as HrB.
  unfold drawA, drawB. lia.
Qed.

Example div_question_level_4 :
  generateQuestion div 4 None (mkEnv (1 # 2) (3 # 4) 1700000000000 "8f3a")
  = Some (mkQuestion "div-1700000000000-8f3a" "81 / 9" 9 div 4).
Proof. reflexivity. Qed.

(** ** Subtraction questions *)

(** C5.  A "sub" question.  No level of the table sets allowNegative, so
    negatives are disallowed exactly when the allowNegative option is false
    or absent: then the larger draw is the minuend,
    answer = max(A,B) - min(A,B) >= 0.  When the option is true the operands
    stay in the order drawn and answer = A - B, which can be negative. *)
Theorem generateQuestion_sub_answer lvl options env :
  exists spec q,
    getLevelSpec sub lvl = Some spec /\
    allowNegative spec = None /\
    generateQuestion sub lvl options env = Some q /\
    let a := drawA spec env in
    let b := drawB spec env in
    (requestedNegative options = Some false \/ requestedNegative options = None ->
       q_answer q = Z.max a b - Z.min a b /\
       0 <= q_answer q /\
       q_text q = pretty (Z.max a b) +:+ " - " +:+ pretty (Z.min a b)) /\
    (requestedNegative options = Some true ->
       q_answer q = a - b /\
       q_text q = pretty a +:+ " - " +:+ pretty b /\
       (a < b -> q_answer q < 0)).
Proof.
  destruct (getLevelSpec_total sub lvl) as (spec & Hspec & Hin).
  pose proof (LEVELS_no_negative_flag sub spec Hin) as Hflag.
  unfold generateQuestion. rewrite Hspec.
  case_decide; [discriminate |]. case_decide; [| done].
  eexists spec, _.
  split; [reflexivity |]. split; [exact Hflag |]. split; [reflexivity |].
  cbn [q_answer q_text]. fold (drawA spec env). fold (drawB spec env).
  fold (requestedNegative options). rewrite Hflag.
  split.
  - intros [-> | ->]; simpl; (split; [reflexivity | split; [lia | reflexivity]]).
  - intros ->. simpl. split; [reflexivity | split; [reflexivity | lia]].
Qed.

Lemma generateQuestion_sub_answer_witness :
  generateQuestion sub 1 None (mkEnv (1 # 11) (9 # 10) 5 "c0de")
  = Some (mkQuestion "sub-5-c0de" "9 - 1" 8 sub 1) /\
  generateQuestion sub 1 (Some (mkOptions (Some false)))
    (mkEnv (1 # 11) (9 # 10) 5 "c0de")
  = Some (mkQuestion "sub-5-c0de" "9 - 1" 8 sub 1) /\
  generateQuestion sub 1 (Some (mkOptions (Some true)))
    (mkEnv (1 # 11) (9 # 10) 5 "c0de")
  = Some (mkQuestion "sub-5-c0de" "1 - 9" (-8) sub 1) /\
  (exists spec q,
     generateQuestion sub 1 (Some (mkOptions (Some true)))
       (mkEnv (1 # 11) (9 # 10) 5 "c0de") = Some q /\
     getLevelSpec sub 1 = Some spec /\
     q_answer q = drawA spec (mkEnv (1 # 11) (9 # 10) 5 "c0de")
                  - drawB spec (mkEnv (1 # 11) (9 # 10) 5 "c0de") /\
     q_answer q < 0).
Proof.
  repeat (split; [reflexivity |]).
  destruct (generateQuestion_sub_answer 1 (Some (mkOptions (Some true)))
              (mkEnv (1 # 11) (9 # 10) 5 "c0de"))
    as (spec & q & Hspec & _ & Hq & _ & Hneg).
  destruct Hneg as (Hans & _ & Hlt); [reflexivity |].
  exists spec, q. repeat split; [exact Hq | exact Hspec | exact Hans |].
  apply Hlt. injection Hspec as <-. vm_compute. reflexivity.
Defined.

(** ** The weakest skill *)

Lemma countCorrect_bounds (h : list Result) :
  0 <= countCorrect h <= Z.of_nat (length h).
Proof.
  unfold countCorrect.
  assert (forall acc,
            acc <= fold_left
                     (fun total item => total + (if correct item then 1 else 0))
                     h acc
                <= acc + Z.of_nat (length h)) as Hgen.
  { induction h as [| r h IH]; intros acc; simpl length; simpl fold_left.
    - lia.
    - specialize (IH (acc + (if correct r then 1 else 0))).
      destruct (correct r); lia. }
  specialize (Hgen 0). lia.
Qed.

Lemma accuracyFromHistory_range (h : list Result) :
  (0 <= accuracyFromHistory h <= 1)%Q.
Proof.
  unfold accuracyFromHistory.
  destruct (Nat.eqb_spec (length h) 0) as [| Hne]; [split; discriminate |].
  pose proof (countCorrect_bounds h) as [Hlo Hhi].
  assert (0 < inject_Z (Z.of_nat (length h)))%Q as Hpos.
  { change 0%Q with (inject_Z 0). rewrite <- Zlt_Qlt. lia. }
  split.
  - apply Qle_shift_div_l; [exact Hpos |].
    rewrite Qmult_0_l. change 0%Q with (inject_Z 0). by rewrite <- Zle_Qle.
  - apply Qle_shift_div_r; [exact Hpos |].
    rewrite Qmult_1_l. by rewrite <- Zle_Qle.
Qed.

Lemma skillScore_le_1 stats skill : (skillScore stats skill <= 1)%Q.
Proof.
  unfold skillScore.
  destruct (length (history (statsGet stats skill)) =? 0)%nat.
  - discriminate.
  - apply accuracyFromHistory_range.
Qed.

Lemma skillIndex_in_SKILL_LIST skill :
  SKILL_LIST !! skillIndex skill = Some skill.
Proof. by destruct skill. Qed.

(** C8.  getWeakestSkill scores a skill 0.55 when its history is empty and
    by its accuracy otherwise, and returns the first skill, in the order add,
    sub, mul, div, whose score is the lowest: no skill scores lower and every
    skill before it scores strictly higher.  On all-empty histories it
    returns "add". *)
Theorem getWeakestSkill_first_lowest stats :
  let w := getWeakestSkill stats in
  (forall k,
     (history (statsGet stats k) = [] -> skillScore stats k = (55 # 100)%Q) /\
     (history (statsGet stats k) <> [] ->
        skillScore stats k = getAccuracy (statsGet stats k))) /\
  (forall k, (skillScore stats w <= skillScore stats k)%Q) /\
  (forall k, (skillIndex k < skillIndex w)%nat ->
     (skillScore stats w < skillScore stats k)%Q) /\
  ((forall k, history (statsGet stats k) = []) -> w = add).
Proof.
  intros w. split; [| split; [| split]].
  - intros k. unfold skillScore, getAccuracy.
    destruct (history (statsGet stats k)) as [| r h]; simpl; by split.
  - pose proof (skillScore_le_1 stats add).
    pose proof (skillScore_le_1 stats sub).
    pose proof (skillScore_le_1 stats mul).
    pose proof (skillScore_le_1 stats div).
    unfold w, getWeakestSkill, SKILL_LIST. simpl. unfold weakestStep.
    repeat match goal with
      | |- context [Qlt_le_dec ?x ?y] => destruct (Qlt_le_dec x y)
      end; simpl; intros []; lra.
  - pose proof (skillScore_le_1 stats add).
    pose proof (skillScore_le_1 stats sub).
    pose proof (skillScore_le_1 stats mul).
    pose proof (skillScore_le_1 stats div).
    unfold w, getWeakestSkill, SKILL_LIST. simpl. unfold weakestStep.
    repeat match goal with
      | |- context [Qlt_le_dec ?x ?y] => destruct (Qlt_le_dec x y)
      end; simpl; intros []; simpl; intros Hlt; try lia; lra.
  - intros Hempty. unfold w, getWeakestSkill, SKILL_LIST.
    cbn [fold_left hd]. unfold weakestStep, skillScore.
    rewrite !Hempty. reflexivity.
Qed.

Lemma getWeakestSkill_first_lowest_witness :
  getWeakestSkill createDefaultStats = add /\
  (let s := feed (updateStats createDefaultStats add true 10) mul
              [mkResult true 10; mkResult false 10] in
   getWeakestSkill s = mul /\
   (skillScore s mul < skillScore s sub)%Q).
Proof.
  split.
  - apply getWeakestSkill_first_lowest. intros []; reflexivity.
  - intros s. assert (getWeakestSkill s = mul) as Hw by reflexivity.
    split; [exact Hw |].
    pose proof (getWeakestSkill_first_lowest s) as (_ & _ & Hbefore & _).
    cbv zeta in Hbefore. rewrite Hw in Hbefore.
    apply Hbefore. simpl. lia.
Defined.

(** ** The mistake ledger *)

Lemma addMistakeEntry_absent now items question :
  (forall item, item ∈ items -> m_id item <> makeMistakeId question) ->
  addMistakeEntry now items question
  = take MAX_MISTAKES
      ({| m_id := makeMistakeId question;
          m_text := q_text question;
          m_answer := q_answer question;
          m_skill := q_skill question;
          m_level := q_level question;
          misses := 1;
          lastMissedAt := now |} :: items).
Proof.
  intros Habsent. unfold addMistakeEntry.
  assert (list_find (fun item => m_id item = makeMistakeId question) items = None)
    as ->; [| reflexivity].
  apply list_find_None, Forall_forall. exact Habsent.
Qed.

Lemma addMistakeEntry_present now items question i existing :
  items !! i = Some existing ->
  m_id existing = makeMistakeId question ->
  (forall j other, items !! j = Some other -> (j < i)%nat ->
     m_id other <> makeMistakeId question) ->
  addMistakeEntry now items question
  = take MAX_MISTAKES
      ({| m_id := m_id existing;
          m_text := m_text existing;
          m_answer := q_answer question;
          m_skill := m_skill existing;
          m_level := q_level question;
          misses := misses existing + 1;
          lastMissedAt := now |} :: delete i items).
Proof.
  intros Hi Hid Hfirst. unfold addMistakeEntry.
  assert (list_find (fun item => m_id item = makeMistakeId question) items
          = Some (i, existing)) as ->; [| reflexivity].
  apply list_find_Some. auto.
Qed.

Lemma addMistakeEntry_length now items question :
  (length (addMistakeEntry now items question) <= MAX_MISTAKES)%nat.
Proof.
  unfold addMistakeEntry.
  destruct (list_find _ items) as [[i existing] |]; rewrite length_take; lia.
Qed.

(** C9.  addMistakeEntry keys the ledger by skill + ":" + text and never
    reads the question id.  When an entry has the key, the first such entry
    moves to the front with misses + 1 and answer, level and lastMissedAt
    refreshed; otherwise a new entry with misses = 1 goes to the front.  The
    result is cut to its first 50 entries.  Two calls for the same (skill,
    text) on a ledger without that key leave exactly one entry with the key,
    at the head, with misses = 2. *)
Theorem addMistakeEntry_merges_by_skill_and_text now items question :
  let key := skillName (q_skill question) +:+ ":" +:+ q_text question in
  (forall anyId,
     addMistakeEntry now items
       (mkQuestion anyId (q_text question) (q_answer question)
          (q_skill question) (q_level question))
     = addMistakeEntry now items question) /\
  (forall i existing,
     items !! i = Some existing ->
     m_id existing = key ->
     (forall j other, items !! j = Some other -> (j < i)%nat ->
        m_id other <> key) ->
     addMistakeEntry now items question
     = take 50
         ({| m_id := m_id existing;
             m_text := m_text existing;
             m_answer := q_answer question;
             m_skill := m_skill existing;
             m_level := q_level question;
             misses := misses existing + 1;
             lastMissedAt := now |} :: delete i items)) /\
  ((forall item, item ∈ items -> m_id item <> key) ->
     addMistakeEntry now items question
     = take 50
         ({| m_id := key;
             m_text := q_text question;
             m_answer := q_answer question;
             m_skill := q_skill question;
             m_level := q_level question;
             misses := 1;
             lastMissedAt := now |} :: items)) /\
  (length (addMistakeEntry now items question) <= 50)%nat /\
  (forall later again,
     q_skill again = q_skill question ->
     q_text again = q_text question ->
     (forall item, item ∈ items -> m_id item <> key) ->
     exists rest,
       addMistakeEntry later (addMistakeEntry now items question) again
       = {| m_id := key;
            m_text := q_text question;
            m_answer := q_answer again;
            m_skill := q_skill question;
            m_level := q_level again;
            misses := 2;
            lastMissedAt := later |} :: rest /\
       rest = take 49 items /\
       (forall item, item ∈ rest -> m_id item <> key)).
Proof.
  intros key. change key with (makeMistakeId question).
  split; [intros anyId; reflexivity |].
  split; [apply addMistakeEntry_present |].
  split; [apply addMistakeEntry_absent |].
  split; [apply addMistakeEntry_length |].
  intros later again Hskill Htext Habsent.
  assert (makeMistakeId again = makeMistakeId question) as Hkey.
  { unfold makeMistakeId. by rewrite Hskill, Htext. }
  rewrite (addMistakeEntry_absent now items question Habsent).
  match goal with
  | |- context [take MAX_MISTAKES (?x :: items)] =>
      set (first := x);
      change (take MAX_MISTAKES (first :: items)) with (first :: take 49 items)
  end.
  exists (take 49 items).
  split; [| split; [reflexivity |]].
  - rewrite (addMistakeEntry_present later (first :: take 49 items) again 0
               first eq_refl);
      [| by rewrite Hkey | intros j other _ Hj; lia].
    cbn [delete list_delete].
    change (take MAX_MISTAKES (?x :: ?l)) with (x :: take 49 l).
    rewrite take_take. reflexivity.
  - intros item Hitem. apply Habsent.
    by eapply subseteq_take.
Qed.

Lemma addMistakeEntry_merges_by_skill_and_text_witness :
  let other := mkMistakeItem "mul:2 x 3" "2 x 3" 6 mul 1 4 100 in
  let q1 := mkQuestion "add-200-1f" "2 + 3" 5 add 1 in
  let q2 := mkQuestion "add-300-9c" "2 + 3" 5 add 2 in
  addMistakeEntry 300 (addMistakeEntry 200 [other] q1) q2
  = [mkMistakeItem "add:2 + 3" "2 + 3" 5 add 2 2 300; other] /\
  addMistakeEntry 400 [other; mkMistakeItem "add:2 + 3" "2 + 3" 5 add 1 1 200] q2
  = [mkMistakeItem "add:2 + 3" "2 + 3" 5 add 2 2 400; other].
Proof.
  intros other q1 q2.
  assert (forall item, item ∈ [other] -> m_id item <> "add:2 + 3") as Habsent.
  { intros item Hin. apply list_elem_of_singleton in Hin. subst item.
    discriminate. }
  split.
  - destruct (addMistakeEntry_merges_by_skill_and_text 200 [other] q1)
      as (_ & _ & _ & _ & Htwice).
    destruct (Htwice 300 q2 eq_refl eq_refl Habsent) as (rest & Heq & Hrest & _).
    rewrite Heq, Hrest. reflexivity.
  - destruct (addMistakeEntry_merges_by_skill_and_text 400
                [other; mkMistakeItem "add:2 + 3" "2 + 3" 5 add 1 1 200] q2)
      as (_ & Hpresent & _).
    rewrite (Hpresent 1%nat _ eq_refl eq_refl); [reflexivity |].
    intros j item Hj Hlt. destruct j as [| j]; [| lia].
    injection Hj as <-. discriminate.
Defined.

(** * Further properties of the statistics module *)

(** ** The time budget *)

(** X1.  The time budget never grows with the level: for l1 <= l2,
    2400 <= getTargetMs(l2) <= getTargetMs(l1) <= 6000; on the levels of the
    table the clamp is idle and the budget is 6000 - 300 * level. *)
Theorem getTargetMs_nonincreasing l1 l2 :
  l1 <= l2 ->
  2400 <= getTargetMs l2 <= getTargetMs l1 /\
  getTargetMs l1 <= 6000 /\
  (1 <= l1 <= MAX_LEVEL -> getTargetMs l1 = 6000 - 300 * l1).
Proof.
  intros Hle. rewrite MAX_LEVEL_eq. unfold getTargetMs, clamp. lia.
Qed.

Lemma getTargetMs_nonincreasing_witness :
  2400 <= getTargetMs 12 <= getTargetMs 3 /\ getTargetMs 3 = 5100.
Proof.
  destruct (getTargetMs_nonincreasing 3 12) as (Hmono & _ & Hlin); [lia |].
  split; [exact Hmono |]. apply Hlin. vm_compute. split; congruence.
Defined.

(** ** Level lookup *)

(** X2.  getLevelSpec never misses the table: it answers for the level
    clamped into [1, MAX_LEVEL], which is entry level - 1 inside the range,
    the first entry below it and the last entry above it. *)
Theorem getLevelSpec_clamped skill lvl :
  is_Some (getLevelSpec skill lvl) /\
  getLevelSpec skill lvl = getLevelSpec skill (clamp lvl 1 MAX_LEVEL) /\
  (1 <= lvl <= MAX_LEVEL ->
     getLevelSpec skill lvl = LEVELS skill !! Z.to_nat (lvl - 1)) /\
  (lvl <= 1 -> getLevelSpec skill lvl = LEVELS skill !! 0%nat) /\
  (MAX_LEVEL <= lvl -> getLevelSpec skill lvl = LEVELS skill !! 11%nat).
Proof.
  rewrite MAX_LEVEL_eq. unfold getLevelSpec. rewrite LEVELS_length.
  split; [| split; [| split; [| split]]].
  - apply lookup_lt_is_Some. rewrite LEVELS_length. unfold clamp. lia.
  - f_equal. unfold clamp. lia.
  - intros H. f_equal. unfold clamp. lia.
  - intros H. f_equal. unfold clamp. lia.
  - intros H. f_equal. unfold clamp. lia.
Qed.

Lemma getLevelSpec_clamped_witness :
  getLevelSpec mul (-4) = Some (specMax 5 5) /\
  getLevelSpec mul 40 = Some (specMax 90 90) /\
  getLevelSpec mul 3 = Some (specMax 12 12).
Proof.
  destruct (getLevelSpec_clamped mul (-4)) as (_ & _ & _ & Hlow & _).
  destruct (getLevelSpec_clamped mul 40) as (_ & _ & _ & _ & Hhigh).
  destruct (getLevelSpec_clamped mul 3) as (_ & _ & Hin & _).
  rewrite Hlow by lia. rewrite Hhigh by (vm_compute; congruence).
  rewrite Hin by (vm_compute; split; congruence).
  repeat split.
Defined.

(** ** Accuracy and average time *)

Lemma countCorrect_cons (r : Result) (h : list Result) :
  countCorrect (r :: h) = (if correct r then 1 else 0) + countCorrect h.
Proof.
  unfold countCorrect. simpl fold_left.
  set (f := fun (total : Z) (item : Result) =>
              total + (if correct item then 1 else 0)).
  assert (forall acc, fold_left f h acc = acc + fold_left f h 0) as Hshift.
  { induction h as [| r' h IH]; intros acc; simpl fold_left; [lia |].
    rewrite (IH (f acc r')), (IH (f 0 r')). unfold f. lia. }
  rewrite Hshift. lia.
Qed.

Lemma countCorrect_all (h : list Result) :
  countCorrect h = Z.of_nat (length h) <->
  Forall (fun r => correct r = true) h.
Proof.
  induction h as [| r h IH]; [by split |].
  rewrite countCorrect_cons, Forall_cons. simpl length.
  pose proof (countCorrect_bounds h). rewrite <- IH.
  destruct (correct r); split; intros; try lia; (split; [done | lia]) || naive_solver.
Qed.

Lemma countCorrect_none (h : list Result) :
  countCorrect h = 0 <-> Forall (fun r => correct r = false) h.
Proof.
  induction h as [| r h IH]; [by split |].
  rewrite countCorrect_cons, Forall_cons.
  pose proof (countCorrect_bounds h). rewrite <- IH.
  destruct (correct r); split; intros; try lia; (split; [done | lia]) || naive_solver.
Qed.

Lemma ratio_eq_1 (n d : Z) :
  0 < d -> (inject_Z n / inject_Z d == 1)%Q <-> n = d.
Proof.
  intros Hd.
  assert (~ inject_Z d == 0)%Q as Hnz.
  { change 0%Q with (inject_Z 0). rewrite inject_Z_injective. lia. }
  split.
  - intros H. apply inject_Z_injective.
    rewrite <- (Qmult_div_r (inject_Z n) (inject_Z d)) by exact Hnz.
    rewrite H. ring.
  - intros ->. unfold Qdiv. by apply Qmult_inv_r.
Qed.

Lemma ratio_eq_0 (n d : Z) :
  0 < d -> (inject_Z n / inject_Z d == 0)%Q <-> n = 0.
Proof.
  intros Hd.
  assert (~ inject_Z d == 0)%Q as Hnz.
  { change 0%Q with (inject_Z 0). rewrite inject_Z_injective. lia. }
  split.
  - intros H. apply inject_Z_injective.
    rewrite <- (Qmult_div_r (inject_Z n) (inject_Z d)) by exact Hnz.
    rewrite H. ring.
  - intros ->. unfold Qdiv. ring.
Qed.

(** X3.  getAccuracy lies in [0, 1] and is 0 on an empty history; on a
    non-empty history it is 1 exactly when every recorded result is correct
    and 0 exactly when none is. *)
Theorem getAccuracy_range_and_extremes (stats : SkillStats) :
  (0 <= getAccuracy stats <= 1)%Q /\
  (history stats = [] -> getAccuracy stats = 0%Q) /\
  (history stats <> [] ->
     ((getAccuracy stats == 1)%Q <->
        Forall (fun r => correct r = true) (history stats)) /\
     ((getAccuracy stats == 0)%Q <->
        Forall (fun r => correct r = false) (history stats))).
Proof.
  unfold getAccuracy. set (h := history stats).
  split; [apply accuracyFromHistory_range |].
  split; [by intros -> |].
  intros Hne. unfold accuracyFromHistory.
  assert (0 < length h)%nat as Hlen by (destruct h; [done | simpl; lia]).
  destruct (Nat.eqb_spec (length h) 0) as [| _]; [lia |].
  rewrite ratio_eq_1, ratio_eq_0 by lia.
  rewrite countCorrect_all, countCorrect_none. done.
Qed.

Lemma getAccuracy_range_and_extremes_witness :
  (getAccuracy (mkSkillStats 2 0 0 [mkResult true 900; mkResult true 1200]) == 1)%Q
  /\ getAccuracy freshSkill = 0%Q.
Proof.
  destruct (getAccuracy_range_and_extremes
              (mkSkillStats 2 0 0 [mkResult true 900; mkResult true 1200]))
    as (_ & _ & Hfull).
  destruct (getAccuracy_range_and_extremes freshSkill) as (_ & Hempty & _).
  split; [| by apply Hempty].
  apply Hfull; [discriminate |]. repeat constructor.
Defined.

Lemma totalMs_cons (r : Result) (h : list Result) :
  totalMs (r :: h) = ms r + totalMs h.
Proof.
  unfold totalMs. simpl fold_left.
  set (f := fun (sum : Z) (item : Result) => sum + ms item).
  assert (forall acc, fold_left f h acc = acc + fold_left f h 0) as Hshift.
  { induction h as [| r' h IH]; intros acc; simpl fold_left; [lia |].
    rewrite (IH (f acc r')), (IH (f 0 r')). unfold f. lia. }
  rewrite Hshift. lia.
Qed.

Lemma totalMs_bounds (lo hi : Z) (h : list Result) :
  Forall (fun r => lo <= ms r <= hi) h ->
  lo * Z.of_nat (length h) <= totalMs h <= hi * Z.of_nat (length h).
Proof.
  induction 1 as [| r h Hr _ IH]; [unfold totalMs; simpl; lia |].
  rewrite totalMs_cons. simpl length. lia.
Qed.

(** X4.  getAverageMs is 0 on an empty history; on a non-empty one it lies
    between any two bounds that hold for every recorded time, so it is never
    negative when the times are not. *)
Theorem getAverageMs_between (stats : SkillStats) (lo hi : Z) :
  (history stats = [] -> getAverageMs stats = 0%Q) /\
  (history stats <> [] ->
   Forall (fun r => lo <= ms r <= hi) (history stats) ->
   (inject_Z lo <= getAverageMs stats <= inject_Z hi)%Q).
Proof.
  unfold getAverageMs. set (h := history stats).
  split; [by intros -> |].
  intros Hne Hall.
  assert (0 < length h)%nat as Hlen by (destruct h; [done | simpl; lia]).
  destruct (Nat.eqb_spec (length h) 0) as [| _]; [lia |].
  pose proof (totalMs_bounds lo hi h Hall) as [Hlo Hhi].
  assert (0 < inject_Z (Z.of_nat (length h)))%Q as Hpos.
  { change 0%Q with (inject_Z 0). rewrite <- Zlt_Qlt. lia. }
  split.
  - apply Qle_shift_div_l; [exact Hpos |].
    rewrite <- inject_Z_mult, <- Zle_Qle. exact Hlo.
  - apply Qle_shift_div_r; [exact Hpos |].
    rewrite <- inject_Z_mult, <- Zle_Qle. exact Hhi.
Qed.

Lemma getAverageMs_between_witness :
  (inject_Z 900 <= getAverageMs
     (mkSkillStats 2 0 0 [mkResult true 900; mkResult false 1200])
   <= inject_Z 1200)%Q.
Proof.
  destruct (getAverageMs_between
              (mkSkillStats 2 0 0 [mkResult true 900; mkResult false 1200])
              900 1200) as (_ & Hbetween).
  apply Hbetween; [discriminate |].
  repeat constructor; simpl; lia.
Defined.

(** ** Weighted skill choice *)

Lemma skillScore_ge_0 stats skill : (0 <= skillScore stats skill)%Q.
Proof.
  unfold skillScore.
  destruct (length (history (statsGet stats skill)) =? 0)%nat.
  - discriminate.
  - apply accuracyFromHistory_range.
Qed.

Lemma skillWeight_range stats skill :
  (15 # 100 <= skillWeight stats skill <= 1)%Q.
Proof.
  unfold skillWeight. split; [apply Q.le_max_l |].
  apply Q.max_lub_iff. split; [discriminate |].
  pose proof (skillScore_ge_0 stats skill). lra.
Qed.

Lemma Qle_bool_false (x y : Q) : Qle_bool x y = false -> (y < x)%Q.
Proof.
  intros Hb. apply Qnot_le_lt. intros Hle.
  apply Qle_bool_iff in Hle. congruence.
Qed.

(** Which skill a roll selects: the first one whose running sum of weights
    reaches the roll. *)
Lemma pickSkill_by_roll stats r :
  (0 <= r)%Q -> (r < 1)%Q ->
  let roll := (r * totalWeight stats)%Q in
  let wa := skillWeight stats add in
  let ws := skillWeight stats sub in
  let wm := skillWeight stats mul in
  (pickSkill stats r = add <-> (roll <= wa)%Q) /\
  (pickSkill stats r = sub <-> (wa < roll)%Q /\ (roll <= wa + ws)%Q) /\
  (pickSkill stats r = mul <->
     (wa + ws < roll)%Q /\ (roll <= wa + ws + wm)%Q) /\
  (pickSkill stats r = div <-> (wa + ws + wm < roll)%Q).
Proof.
  intros Hr0 Hr1 roll wa ws wm.
  pose proof (skillWeight_range stats add) as Ha.
  pose proof (skillWeight_range stats sub) as Hs.
  pose proof (skillWeight_range stats mul) as Hm.
  pose proof (skillWeight_range stats div) as Hd.
  fold wa in Ha. fold ws in Hs. fold wm in Hm.
  set (wd := skillWeight stats div) in *.
  assert (0 < totalWeight stats)%Q as Htot.
  { unfold totalWeight. fold wa ws wm wd. lra. }
  assert (roll < totalWeight stats)%Q as Hroll.
  { unfold roll. rewrite <- (Qmult_1_l (totalWeight stats)) at 2.
    apply Qmult_lt_compat_r; assumption. }
  assert (roll == r * (0 + wa + ws + wm + wd))%Q as Hmodel.
  { unfold roll, totalWeight. fold wa ws wm wd. ring. }
  unfold totalWeight in Hroll. fold wa ws wm wd in Hroll.
  unfold pickSkill, pickWeighted, SKILL_LIST.
  cbn [map fold_left snd pickLoop].
  fold (skillWeight stats add) (skillWeight stats sub)
       (skillWeight stats mul) (skillWeight stats div).
  fold wa ws wm wd.
  set (model := (r * (0 + wa + ws + wm + wd))%Q) in *.
  destruct (Qle_bool (model - wa) 0) eqn:E1;
    [apply Qle_bool_iff in E1 | apply Qle_bool_false in E1];
    [simpl; repeat split; intros; try discriminate; try lra |].
  destruct (Qle_bool (model - wa - ws) 0) eqn:E2;
    [apply Qle_bool_iff in E2 | apply Qle_bool_false in E2];
    [simpl; repeat split; intros; try discriminate; try lra |].
  destruct (Qle_bool (model - wa - ws - wm) 0) eqn:E3;
    [apply Qle_bool_iff in E3 | apply Qle_bool_false in E3];
    [simpl; repeat split; intros; try discriminate; try lra |].
  destruct (Qle_bool (model - wa - ws - wm - wd) 0) eqn:E4;
    [apply Qle_bool_iff in E4 | apply Qle_bool_false in E4];
    [simpl; repeat split; intros; try discriminate; try lra |].
  exfalso. lra.
Qed.



(** X6.  No skill is starved: whatever the statistics, for each of the four
    skills some random value in [0, 1) makes pickSkill return it. *)
Theorem pickSkill_every_skill_possible stats k :
  exists r, (0 <= r)%Q /\ (r < 1)%Q /\ pickSkill stats r = k.
Proof.
  pose proof (skillWeight_range stats add) as Ha.
  pose proof (skillWeight_range stats sub) as Hs.
  pose proof (skillWeight_range stats mul) as Hm.
  pose proof (skillWeight_range stats div) as Hd.
  set (wa := skillWeight stats add) in *.
  set (ws := skillWeight stats sub) in *.
  set (wm := skillWeight stats mul) in *.
  set (wd := skillWeight stats div) in *.
  assert (totalWeight stats == wa + ws + wm + wd)%Q as Htotal by reflexivity.
  assert (0 < totalWeight stats)%Q as Hpos by (rewrite Htotal; lra).
  assert (forall t, (0 <= t)%Q -> (t < totalWeight stats)%Q ->
            (0 <= t / totalWeight stats)%Q /\ (t / totalWeight stats < 1)%Q /\
            (t / totalWeight stats * totalWeight stats == t)%Q) as Hdraw.
  { intros t Ht0 Ht1. split; [| split].
    - apply Qle_shift_div_l; [exact Hpos | lra].
    - apply Qlt_shift_div_r; [exact Hpos | lra].
    - rewrite Qmult_comm. apply Qmult_div_r. lra. }
  set (target := match k with
                 | add => 0%Q
                 | sub => (wa + ws)%Q
                 | mul => (wa + ws + wm)%Q
                 | div => (wa + ws + wm + wd * (1 # 2))%Q
                 end).
  assert (0 <= target)%Q as Ht0 by (unfold target; destruct k; lra).
  assert (target < totalWeight stats)%Q as Ht1
      by (rewrite Htotal; unfold target; destruct k; lra).
  destruct (Hdraw target Ht0 Ht1) as (Hr0 & Hr1 & Hroll).
  exists (target / totalWeight stats)%Q. split; [exact Hr0 |].
  split; [exact Hr1 |].
  pose proof (pickSkill_by_roll stats _ Hr0 Hr1) as (Hadd & Hsub & Hmul & Hdiv).
  cbv zeta in Hadd, Hsub, Hmul, Hdiv.
  fold wa ws wm in Hadd, Hsub, Hmul, Hdiv.
  rewrite Hroll in Hadd, Hsub, Hmul, Hdiv.
  unfold target in Hadd, Hsub, Hmul, Hdiv.
  destruct k.
  - apply Hadd. lra.
  - apply Hsub. lra.
  - apply Hmul. lra.
  - apply Hdiv. lra.
Qed.

(** ** The question generator, skill by skill *)

(** The question of a call, spelled out for each skill. *)
Lemma generateQuestion_cases skill lvl options env :
  exists spec,
    getLevelSpec skill lvl = Some spec /\ spec ∈ LEVELS skill /\
    let a := drawA spec env in
    let b := drawB spec env in
    let negative :=
      default false (orElse (options ≫= optAllowNegative) (allowNegative spec)) in
    generateQuestion skill lvl options env
    = Some
        match skill with
        | add => mkQuestion (freshId add env) (pretty a +:+ " + " +:+ pretty b)
                   (a + b) add lvl
        | sub =>
            mkQuestion (freshId sub env)
              (pretty (if negative then a else Z.max a b) +:+ " - "
               +:+ pretty (if negative then b else Z.min a b))
              ((if negative then a else Z.max a b)
               - (if negative then b else Z.min a b)) sub lvl
        | mul => mkQuestion (freshId mul env) (pretty a +:+ " x " +:+ pretty b)
                   (a * b) mul lvl
        | div =>
            mkQuestion (freshId div env)
              (pretty (Z.max 1 a * b) +:+ " / " +:+ pretty (Z.max 1 a))
              b div lvl
        end.
Proof.
  destruct (getLevelSpec_total skill lvl) as (spec & Hspec & Hin).
  exists spec. split; [exact Hspec |]. split; [exact Hin |].
  unfold generateQuestion. rewrite Hspec. by destruct skill.
Qed.

Lemma draws_in_range skill spec env :
  spec ∈ LEVELS skill ->
  (0 <= rndA env)%Q -> (rndA env < 1)%Q ->
  (0 <= rndB env)%Q -> (rndB env < 1)%Q ->
  0 <= default 0 (minA spec) <= drawA spec env /\ drawA spec env <= maxA spec /\
  0 <= default 0 (minB spec) <= drawB spec env /\ drawB spec env <= maxB spec.
Proof.
  intros Hin HA0 HA1 HB0 HB1.
  pose proof (LEVELS_bounds_valid skill spec Hin) as (HbA & HbB & HmA & HmB).
  pose proof (randomInt_range (rndA env) _ _ HA0 HA1 HbA) as HrA.
  pose proof (randomInt_range (rndB env) _ _ HB0 HB1 HbB) as HrB.
  unfold drawA, drawB. lia.
Qed.

Lemma LEVELS_operand_caps skill spec :
  spec ∈ LEVELS skill ->
  match skill with
  | add | sub => maxA spec <= 2000 /\ maxB spec <= 2000
  | mul => maxA spec <= 90 /\ maxB spec <= 90
  | div => maxA spec <= 90 /\ maxB spec <= 70
  end.
Proof.
  revert spec. apply Forall_forall.
  destruct skill; repeat constructor; simpl; lia.
Qed.

(** X7.  generateQuestion answers for every skill, level and option: the
    table lookup cannot miss.  The question carries the skill and the level
    exactly as passed, also a level outside the table, and the id
    skill-time-digits; a level outside [1, MAX_LEVEL] gives the question of
    the clamped level, apart from the level field. *)
Theorem generateQuestion_always_answers skill lvl options env :
  exists q,
    generateQuestion skill lvl options env = Some q /\
    q_skill q = skill /\
    q_level q = lvl /\
    q_id q = skillName skill +:+ "-" +:+ pretty (clock env) +:+ "-" +:+ rndHex env /\
    generateQuestion skill (clamp lvl 1 MAX_LEVEL) options env
    = Some (mkQuestion (q_id q) (q_text q) (q_answer q) (q_skill q)
              (clamp lvl 1 MAX_LEVEL)).
Proof.
  destruct (generateQuestion_cases skill lvl options env)
    as (spec & Hspec & _ & Hq).
  destruct (generateQuestion_cases skill (clamp lvl 1 MAX_LEVEL) options env)
    as (spec' & Hspec' & _ & Hq').
  assert (spec' = spec) as ->.
  { assert (getLevelSpec skill (clamp lvl 1 MAX_LEVEL) = getLevelSpec skill lvl)
      as Heq.
    { unfold getLevelSpec. rewrite LEVELS_length, MAX_LEVEL_eq.
      f_equal. unfold clamp. lia. }
    congruence. }
  cbv zeta in Hq, Hq'. rewrite Hq, Hq'.
  eexists. split; [reflexivity |]. by destruct skill.
Qed.

(** X8.  An "add" question has text "A + B" and answer A + B; with random
    values in [0, 1) both operands lie between 0 and the maxima of the level,
    so the answer is between 0 and maxA + maxB, at most 4000. *)
Theorem generateQuestion_add_sum lvl options env :
  (0 <= rndA env)%Q -> (rndA env < 1)%Q ->
  (0 <= rndB env)%Q -> (rndB env < 1)%Q ->
  exists spec q,
    getLevelSpec add lvl = Some spec /\
    generateQuestion add lvl options env = Some q /\
    let a := drawA spec env in
    let b := drawB spec env in
    0 <= a <= maxA spec /\ 0 <= b <= maxB spec /\
    q_text q = pretty a +:+ " + " +:+ pretty b /\
    q_answer q = a + b /\
    0 <= q_answer q <= maxA spec + maxB spec /\
    q_answer q <= 4000.
Proof.
  intros HA0 HA1 HB0 HB1.
  destruct (generateQuestion_cases add lvl options env)
    as (spec & Hspec & Hin & Hq).
  pose proof (draws_in_range add spec env Hin HA0 HA1 HB0 HB1).
  pose proof (LEVELS_operand_caps add spec Hin) as Hcap. simpl in Hcap.
  eexists spec, _. split; [exact Hspec |]. split; [exact Hq |].
  simpl. repeat split; lia.
Qed.

Lemma generateQuestion_add_sum_witness :
  exists q,
    generateQuestion add 2 None (mkEnv (1 # 3) (6 # 7) 42 "beef") = Some q /\
    0 <= q_answer q <= 4000.
Proof.
  destruct (generateQuestion_add_sum 2 None (mkEnv (1 # 3) (6 # 7) 42 "beef"))
    as (spec & q & _ & Hq & _ & _ & _ & _ & Hrange & Hcap);
    [discriminate | reflexivity | discriminate | reflexivity |].
  exists q. split; [exact Hq | lia].
Defined.

(** X9.  A "mul" question has text "A x B" and answer A * B; with random
    values in [0, 1) the answer is between 0 and maxA * maxB, at most
    8100. *)
Theorem generateQuestion_mul_product lvl options env :
  (0 <= rndA env)%Q -> (rndA env < 1)%Q ->
  (0 <= rndB env)%Q -> (rndB env < 1)%Q ->
  exists spec q,
    getLevelSpec mul lvl = Some spec /\
    generateQuestion mul lvl options env = Some q /\
    let a := drawA spec env in
    let b := drawB spec env in
    0 <= a <= maxA spec /\ 0 <= b <= maxB spec /\
    q_text q = pretty a +:+ " x " +:+ pretty b /\
    q_answer q = a * b /\
    0 <= q_answer q <= maxA spec * maxB spec /\
    q_answer q <= 8100.
Proof.
  intros HA0 HA1 HB0 HB1.
  destruct (generateQuestion_cases mul lvl options env)
    as (spec & Hspec & Hin & Hq).
  pose proof (draws_in_range mul spec env Hin HA0 HA1 HB0 HB1).
  pose proof (LEVELS_operand_caps mul spec Hin) as Hcap. simpl in Hcap.
  eexists spec, _. split; [exact Hspec |]. split; [exact Hq |].
  simpl. repeat split; nia.
Qed.

Lemma generateQuestion_mul_product_witness :
  exists q,
    generateQuestion mul 12 None (mkEnv (1 # 3) (6 # 7) 42 "beef") = Some q /\
    0 <= q_answer q <= 8100.
Proof.
  destruct (generateQuestion_mul_product 12 None (mkEnv (1 # 3) (6 # 7) 42 "beef"))
    as (spec & q & _ & Hq & _ & _ & _ & _ & Hrange & Hcap);
    [discriminate | reflexivity | discriminate | reflexivity |].
  exists q. split; [exact Hq | lia].
Defined.

(** ** Creating the next question *)

(** A negative answer needs a subtraction with the allowNegative option. *)
Lemma generateQuestion_answer_sign skill lvl flag env :
  (0 <= rndA env)%Q -> (rndA env < 1)%Q ->
  (0 <= rndB env)%Q -> (rndB env < 1)%Q ->
  exists q,
    generateQuestion skill lvl (Some (mkOptions (Some flag))) env = Some q /\
    q_skill q = skill /\ q_level q = lvl /\
    (q_answer q < 0 -> skill = sub /\ flag = true).
Proof.
  intros HA0 HA1 HB0 HB1.
  destruct (generateQuestion_cases skill lvl (Some (mkOptions (Some flag))) env)
    as (spec & Hspec & Hin & Hq).
  pose proof (draws_in_range skill spec env Hin HA0 HA1 HB0 HB1) as Hdraw.
  cbv zeta in Hq. rewrite Hq. eexists. split; [reflexivity |].
  destruct skill; simpl; (split; [reflexivity |]); (split; [reflexivity |]);
    intros Hneg; try (exfalso; nia).
  split; [reflexivity |]. destruct flag; [reflexivity | lia].
Qed.

(** X10.  createQuestion always yields a question at the current level of
    its skill, the selected skill unless the mode is "mix".  With random
    values in [0, 1) its answer is negative only for a subtraction whose
    level has reached a positive negativeLevel setting; with negativeLevel
    0 no answer is negative. *)
Theorem createQuestion_negative_only_when_unlocked
    selectedMode snapshot negLevel rPick env :
  (0 <= rndA env)%Q -> (rndA env < 1)%Q ->
  (0 <= rndB env)%Q -> (rndB env < 1)%Q ->
  exists q,
    createQuestion selectedMode snapshot negLevel rPick env = Some q /\
    q_level q = level (statsGet snapshot (q_skill q)) /\
    (forall k, selectedMode = skillMode k -> q_skill q = k) /\
    (selectedMode = mix -> q_skill q = pickSkill snapshot rPick) /\
    (q_answer q < 0 -> q_skill q = sub /\ 0 < negLevel <= q_level q).
Proof.
  intros HA0 HA1 HB0 HB1. unfold createQuestion.
  set (skill := match selectedMode with
                | skillMode k => k
                | mix => pickSkill snapshot rPick
                end).
  set (lvl := level (statsGet snapshot skill)).
  destruct (generateQuestion_answer_sign skill lvl
              (bool_decide (skill = sub) && (0 <? negLevel) && (negLevel <=? lvl))
              env HA0 HA1 HB0 HB1) as (q & Hq & Hk & Hl & Hneg).
  exists q. split; [exact Hq |]. rewrite Hk, Hl.
  split; [reflexivity |].
  split; [by intros k -> |]. split; [by intros -> |].
  intros Hlt. destruct (Hneg Hlt) as [Hsub Hflag].
  split; [exact Hsub |].
  apply andb_prop in Hflag as [Hflag Hle].
  apply andb_prop in Hflag as [_ Hpos]. lia.
Qed.

Lemma createQuestion_negative_only_when_unlocked_witness :
  let top := statsSet createDefaultStats sub (mkSkillStats 3 0 0 []) in
  let env := mkEnv (1 # 10) (9 # 10) 5 "c0de" in
  createQuestion (skillMode sub) top 3 0 env
  = Some (mkQuestion "sub-5-c0de" "3 - 27" (-24) sub 3) /\
  exists q,
    createQuestion (skillMode sub) top 4 0 env = Some q /\ 0 <= q_answer q.
Proof.
  intros top env. split; [reflexivity |].
  destruct (createQuestion_negative_only_when_unlocked (skillMode sub) top 4 0 env)
    as (q & Hq & Hl & _ & _ & Hneg);
    [discriminate | reflexivity | discriminate | reflexivity |].
  exists q. split; [exact Hq |].
  destruct (Z_lt_le_dec (q_answer q) 0) as [Hlt | Hge]; [| exact Hge].
  destruct (Hneg Hlt) as [Hk Hlevel]. rewrite Hl, Hk in Hlevel.
  vm_compute in Hlevel. destruct Hlevel as [_ Hle]. by exfalso; apply Hle.
Defined.

(** * Further properties of the leveling state machine *)

(** X11.  One result moves the level of the updated skill by at most one
    step once the level is in [1, MAX_LEVEL]: a correct result never lowers
    it and raises it only if it is the third or later of a streak and within
    the time budget; an incorrect result never raises it and lowers it only
    as the second or later miss in a row. *)
Theorem updateStats_level_step stats skill c t :
  let cur := statsGet stats skill in
  let new := statsGet (updateStats stats skill c t) skill in
  1 <= level cur <= MAX_LEVEL ->
  (c = true ->
     level cur <= level new <= level cur + 1 /\
     (level new = level cur + 1 ->
        3 <= streak cur + 1 /\ t <= getTargetMs (level cur) /\ streak new = 0)) /\
  (c = false ->
     level cur - 1 <= level new <= level cur /\
     (level new = level cur - 1 ->
        2 <= mistakeStreak cur + 1 /\ mistakeStreak new = 0)).
Proof.
  intros cur new Hrange. rewrite MAX_LEVEL_eq in Hrange.
  split; intros ->.
  - pose proof (updateStats_correct stats skill t) as (_ & Hstay & Hup).
    cbv zeta in Hstay, Hup. fold cur new in Hstay, Hup.
    rewrite MAX_LEVEL_eq in Hup. unfold clamp in Hup.
    destruct (Z_lt_le_dec (streak cur + 1) 3) as [Hs | Hs];
      [destruct Hstay as [Hl _]; [lia |]; lia |].
    destruct (Z_lt_le_dec (getTargetMs (level cur)) t) as [Ht | Ht];
      [destruct Hstay as [Hl _]; [lia |]; lia |].
    destruct (Hup Hs Ht) as [Hl Hst]. split; [lia |].
    intros Hnew. repeat split; [lia | lia |].
    rewrite Hst. case_decide; lia.
  - pose proof (updateStats_wrong stats skill t) as (_ & Hstay & Hdown).
    cbv zeta in Hstay, Hdown. fold cur new in Hstay, Hdown.
    rewrite MAX_LEVEL_eq in Hdown. unfold clamp in Hdown.
    destruct (Z_lt_le_dec (mistakeStreak cur + 1) 2) as [Hs | Hs];
      [destruct Hstay as [Hl _]; [lia |]; lia |].
    destruct (Hdown Hs) as [Hl Hst]. split; [lia |].
    intros Hnew. split; [lia |].
    rewrite Hst. case_decide; lia.
Qed.

Lemma updateStats_level_step_witness :
  let s := statsSet createDefaultStats add (mkSkillStats 5 7 0 []) in
  5 <= level (statsGet (updateStats s add true 4500) add) <= 6.
Proof.
  intros s.
  apply (updateStats_level_step s add true 4500);
    [vm_compute; split; congruence | reflexivity].
Defined.

Lemma updateStats_keeps_skillInvariant stats skill c t :
  skillInvariant (statsGet stats skill) ->
  skillInvariant (statsGet (updateStats stats skill c t) skill).
Proof.
  unfold skillInvariant. rewrite MAX_LEVEL_eq.
  intros (Hlvl & Hlen & Hs & Hm & Hm1 & _ & _).
  pose proof (updateStats_history stats skill c t) as Hhist.
  assert (history (statsGet (updateStats stats skill c t) skill)
          = sliceLast 11 (history (statsGet stats skill)) ++ [mkResult c t])
    as Hsnoc by (rewrite Hhist; apply sliceLast_snoc).
  assert (last (history (statsGet (updateStats stats skill c t) skill))
          = Some (mkResult c t)) as Hlast by (rewrite Hsnoc; apply last_snoc).
  assert (length (history (statsGet (updateStats stats skill c t) skill))
          <= MAX_HISTORY)%nat as Hlen'.
  { rewrite Hsnoc, length_app, sliceLast_length.
    change (length [mkResult c t]) with 1%nat. unfold MAX_HISTORY. lia. }
  destruct c.
  - pose proof (updateStats_correct stats skill t) as (Hmz & Hstay & Hup).
    cbv zeta in Hmz, Hstay, Hup. rewrite MAX_LEVEL_eq in Hup.
    unfold clamp in Hup.
    set (cur := statsGet stats skill) in *.
    set (new := statsGet (updateStats stats skill true t) skill) in *.
    assert (1 <= level new <= 12 /\ 0 <= streak new) as [Hl' Hs'].
    { destruct (Z_lt_le_dec (streak cur + 1) 3) as [H3 | H3];
        [destruct Hstay as [-> ->]; lia |].
      destruct (Z_lt_le_dec (getTargetMs (level cur)) t) as [Ht | Ht];
        [destruct Hstay as [-> ->]; lia |].
      destruct (Hup H3 Ht) as [Hl Hst]. rewrite Hst.
      split; [lia |]. case_decide; lia. }
    repeat split; try lia. intros _. by exists t.
  - pose proof (updateStats_wrong stats skill t) as (Hsz & Hstay & Hdown).
    cbv zeta in Hsz, Hstay, Hdown. rewrite MAX_LEVEL_eq in Hdown.
    unfold clamp in Hdown.
    set (cur := statsGet stats skill) in *.
    set (new := statsGet (updateStats stats skill false t) skill) in *.
    assert (1 <= level new <= 12 /\ 0 <= mistakeStreak new /\
            (2 <= level new -> mistakeStreak new <= 1)) as (Hl' & Hm' & Hm1').
    { destruct (Z_lt_le_dec (mistakeStreak cur + 1) 2) as [H2 | H2];
        [destruct Hstay as [-> ->]; lia |].
      destruct (Hdown H2) as [Hl Hst]. rewrite Hst.
      split; [lia |]. case_decide; lia. }
    repeat split; try lia. intros _. by exists t.
Qed.

Lemma reachable_all_skillInvariant stats :
  reachable stats -> forall skill, skillInvariant (statsGet stats skill).
Proof.
  induction 1 as [| stats k c t _ IH]; intros skill.
  - destruct skill; vm_compute; repeat split;
      try congruence; try lia; intros H; discriminate H.
  - destruct (decide (skill = k)) as [-> | Hne].
    + apply updateStats_keeps_skillInvariant, IH.
    + rewrite updateStats_frame by done. apply IH.
Qed.

(** X12.  Every skill of every state reachable from createDefaultStats has
    its level in [1, MAX_LEVEL], at most 12 history entries, non-negative
    streak counters, a mistake streak of at most 1 above level 1, and a last
    history entry that is correct when the streak is positive and incorrect
    when the mistake streak is positive. *)
Theorem reachable_skillInvariant stats :
  reachable stats ->
  forall skill,
    let x := statsGet stats skill in
    1 <= level x <= MAX_LEVEL /\
    (length (history x) <= 12)%nat /\
    0 <= streak x /\
    0 <= mistakeStreak x /\
    (2 <= level x -> mistakeStreak x <= 1) /\
    (0 < streak x -> exists t, last (history x) = Some (mkResult true t)) /\
    (0 < mistakeStreak x -> exists t, last (history x) = Some (mkResult false t)).
Proof.
  intros Hreach skill. by apply reachable_all_skillInvariant.
Qed.

Lemma reachable_skillInvariant_witness :
  let s := feed createDefaultStats sub
             [mkResult true 100; mkResult true 100; mkResult true 100;
              mkResult false 100] in
  1 <= level (statsGet s sub) <= MAX_LEVEL /\ mistakeStreak (statsGet s sub) <= 1.
Proof.
  intros s.
  assert (reachable s) as Hreach by (do 4 constructor; constructor).
  destruct (reachable_skillInvariant s Hreach sub) as (Hl & _ & _ & _ & Hm & _).
  split; [exact Hl |]. apply Hm. reflexivity.
Defined.

(** * Further properties of the mistake ledger *)

Lemma filter_all_id {A : Type} (P : A -> Prop) `{forall x, Decision (P x)}
    (l : list A) :
  (forall x, x ∈ l -> P x) -> filter P l = l.
Proof.
  induction l as [| x l IH]; intros Hall; [reflexivity |].
  rewrite filter_cons_True by (apply Hall; left).
  f_equal. apply IH. intros y Hy. apply Hall. by right.
Qed.

Lemma filter_drops_one {A : Type} (P : A -> Prop) `{forall x, Decision (P x)}
    (l : list A) (i : nat) (x : A) :
  l !! i = Some x -> ~ P x -> (forall y, y ∈ delete i l -> P y) ->
  filter P l = delete i l.
Proof.
  intros Hi Hx Hothers.
  rewrite delete_take_drop in Hothers |- *.
  rewrite <- (take_drop_middle l i x Hi) at 1.
  rewrite filter_app, filter_cons_False by exact Hx.
  rewrite !filter_all_id; [reflexivity | |];
    intros y Hy; apply Hothers, elem_of_app; auto.
Qed.

Lemma NoDup_ids_others (items : list MistakeItem) (i : nat) (e : MistakeItem) :
  NoDup (m_id <$> items) -> items !! i = Some e ->
  NoDup (m_id <$> delete i items) /\
  forall other, other ∈ delete i items -> m_id other <> m_id e.
Proof.
  intros Hnd Hi.
  pose proof (delete_Permutation items i e Hi) as Hperm.
  rewrite Hperm in Hnd. rewrite fmap_cons in Hnd.
  apply NoDup_cons in Hnd as [Hnotin Hnd']. split; [exact Hnd' |].
  intros other Hother Heq. apply Hnotin. rewrite <- Heq.
  by apply list_elem_of_fmap_2.
Qed.

(** The two ways [addMistakeEntry] builds its result. *)
Lemma addMistakeEntry_cases now items question :
  ((forall item, item ∈ items -> m_id item <> makeMistakeId question) /\
   addMistakeEntry now items question
   = take MAX_MISTAKES
       ({| m_id := makeMistakeId question;
           m_text := q_text question;
           m_answer := q_answer question;
           m_skill := q_skill question;
           m_level := q_level question;
           misses := 1;
           lastMissedAt := now |} :: items)) \/
  (exists i existing,
     items !! i = Some existing /\ m_id existing = makeMistakeId question /\
     addMistakeEntry now items question
     = take MAX_MISTAKES
         ({| m_id := m_id existing;
             m_text := m_text existing;
             m_answer := q_answer question;
             m_skill := m_skill existing;
             m_level := q_level question;
             misses := misses existing + 1;
             lastMissedAt := now |} :: delete i items)).
Proof.
  unfold addMistakeEntry.
  destruct (list_find _ items) as [[i existing] |] eqn:Hfind.
  - apply list_find_Some in Hfind as (Hi & Hid & _).
    right. by exists i, existing.
  - apply list_find_None in Hfind. left. split; [| reflexivity].
    by apply Forall_forall.
Qed.

Lemma removeMistakeEntry_absent items question :
  (forall item, item ∈ items -> m_id item <> makeMistakeId question) ->
  removeMistakeEntry items question = items.
Proof. intros Habsent. by apply filter_all_id. Qed.

Lemma removeMistakeEntry_present items question i existing :
  NoDup (m_id <$> items) ->
  items !! i = Some existing -> m_id existing = makeMistakeId question ->
  removeMistakeEntry items question = delete i items.
Proof.
  intros Hnd Hi Hid. unfold removeMistakeEntry.
  destruct (NoDup_ids_others items i existing Hnd Hi) as [_ Hothers].
  apply (filter_drops_one _ items i existing Hi).
  - intros Hne. by apply Hne.
  - intros y Hy. rewrite <- Hid. by apply Hothers.
Qed.

(** X13.  removeMistakeEntry keeps, in their order, exactly the entries whose
    id differs from the key skill + ":" + text of the question; a ledger
    without the key is returned unchanged; in a ledger with pairwise
    distinct ids that holds the key, exactly that one entry disappears. *)
Theorem removeMistakeEntry_removes_the_key items question :
  let key := skillName (q_skill question) +:+ ":" +:+ q_text question in
  let result := removeMistakeEntry items question in
  (forall item, item ∈ result <-> item ∈ items /\ m_id item <> key) /\
  result `sublist_of` items /\
  ((forall item, item ∈ items -> m_id item <> key) -> result = items) /\
  (forall i existing,
     NoDup (m_id <$> items) ->
     items !! i = Some existing -> m_id existing = key ->
     result = delete i items /\ (length result + 1 = length items)%nat).
Proof.
  intros key result. change key with (makeMistakeId question).
  split; [| split; [| split]].
  - intros item. unfold result, removeMistakeEntry.
    rewrite list_elem_of_filter. tauto.
  - apply sublist_filter.
  - apply removeMistakeEntry_absent.
  - intros i existing Hnd Hi Hid.
    assert (result = delete i items) as ->
        by (by eapply removeMistakeEntry_present).
    split; [reflexivity |].
    rewrite length_delete by eauto.
    apply lookup_lt_Some in Hi. lia.
Qed.

Lemma removeMistakeEntry_removes_the_key_witness :
  let first := mkMistakeItem "mul:2 x 3" "2 x 3" 6 mul 1 4 100 in
  let second := mkMistakeItem "add:2 + 3" "2 + 3" 5 add 1 1 200 in
  removeMistakeEntry [first; second] (mkQuestion "add-7-ff" "2 + 3" 5 add 4)
  = [first] /\
  removeMistakeEntry [first] (mkQuestion "add-7-ff" "2 + 3" 5 add 4) = [first].
Proof.
  intros first second. split.
  - destruct (removeMistakeEntry_removes_the_key [first; second]
                (mkQuestion "add-7-ff" "2 + 3" 5 add 4))
      as (_ & _ & _ & Hpresent).
    destruct (Hpresent 1%nat second) as [-> _]; try reflexivity.
    apply (bool_decide_unpack _). by vm_compute.
  - apply removeMistakeEntry_removes_the_key.
    intros item Hin. apply list_elem_of_singleton in Hin. subst item.
    discriminate.
Defined.

(** X14.  Graduating right after a miss undoes the insertion: on a ledger
    with pairwise distinct ids, adding a question and then removing it gives
    the first 49 entries of the ledger with that question removed; a ledger
    of fewer than 50 entries that did not hold the question is returned as
    it was. *)
Theorem removeMistakeEntry_after_add now items question :
  NoDup (m_id <$> items) ->
  removeMistakeEntry (addMistakeEntry now items question) question
  = take 49 (removeMistakeEntry items question) /\
  ((forall item, item ∈ items -> m_id item <> makeMistakeId question) ->
   (length items < 50)%nat ->
   removeMistakeEntry (addMistakeEntry now items question) question = items).
Proof.
  intros Hnd.
  assert (removeMistakeEntry (addMistakeEntry now items question) question
          = take 49 (removeMistakeEntry items question)) as Hround.
  { destruct (addMistakeEntry_cases now items question)
      as [[Habsent ->] | (i & existing & Hi & Hid & ->)].
    - rewrite (removeMistakeEntry_absent items question Habsent).
      change (take MAX_MISTAKES (?x :: items)) with (x :: take 49 items).
      unfold removeMistakeEntry at 1.
      rewrite filter_cons_False by (intros Hne; by apply Hne).
      apply filter_all_id. intros item Hitem.
      apply Habsent. by eapply subseteq_take.
    - rewrite (removeMistakeEntry_present items question i existing Hnd Hi Hid).
      change (take MAX_MISTAKES (?x :: ?l)) with (x :: take 49 l).
      unfold removeMistakeEntry.
      rewrite filter_cons_False by (intros Hne; by apply Hne).
      apply filter_all_id. intros item Hitem. rewrite <- Hid.
      apply (NoDup_ids_others items i existing Hnd Hi).
      by eapply subseteq_take. }
  split; [exact Hround |].
  intros Habsent Hlen. rewrite Hround.
  rewrite (removeMistakeEntry_absent items question Habsent).
  apply take_ge. lia.
Qed.

Lemma removeMistakeEntry_after_add_witness :
  let other := mkMistakeItem "mul:2 x 3" "2 x 3" 6 mul 1 4 100 in
  let q := mkQuestion "add-7-ff" "2 + 3" 5 add 4 in
  removeMistakeEntry (addMistakeEntry 300 [other] q) q = [other].
Proof.
  intros other q.
  apply removeMistakeEntry_after_add.
  - apply (bool_decide_unpack _). by vm_compute.
  - intros item Hin. apply list_elem_of_singleton in Hin. subst item.
    discriminate.
  - simpl. lia.
Defined.

Lemma addMistakeEntry_keeps_ledgerInvariant now items question :
  ledgerInvariant items -> ledgerInvariant (addMistakeEntry now items question).
Proof.
  intros (_ & Hnd & Hall).
  split; [apply addMistakeEntry_length |].
  destruct (addMistakeEntry_cases now items question)
    as [[Habsent ->] | (i & existing & Hi & Hid & ->)].
  - split.
    + eapply sublist_NoDup; [| apply fmap_sublist, sublist_take].
      rewrite fmap_cons. apply NoDup_cons. split; [| exact Hnd].
      intros Hin. apply list_elem_of_fmap in Hin as (item & Heq & Hitem).
      by apply (Habsent item Hitem).
    + apply Forall_take, Forall_cons. split; [| exact Hall].
      split; [reflexivity | simpl; lia].
  - destruct (NoDup_ids_others items i existing Hnd Hi) as [Hnd' Hothers].
    assert (wellKeyed existing /\ 1 <= misses existing) as [Hkey Hmiss].
    { eapply Forall_lookup_1 in Hall; [| exact Hi]. exact Hall. }
    split.
    + eapply sublist_NoDup; [| apply fmap_sublist, sublist_take].
      rewrite fmap_cons. apply NoDup_cons. split; [| exact Hnd'].
      intros Hin. apply list_elem_of_fmap in Hin as (item & Heq & Hitem).
      by apply (Hothers item Hitem).
    + apply Forall_take, Forall_cons. split.
      * split; [exact Hkey | simpl; lia].
      * eapply Forall_forall. intros item Hitem.
        eapply Forall_forall in Hall; [exact Hall |].
        by eapply list_elem_of_delete_inv.
Qed.

Lemma removeMistakeEntry_keeps_ledgerInvariant items question :
  ledgerInvariant items -> ledgerInvariant (removeMistakeEntry items question).
Proof.
  intros (Hlen & Hnd & Hall). unfold removeMistakeEntry.
  split; [| split].
  - etransitivity; [apply length_filter | exact Hlen].
  - eapply sublist_NoDup; [exact Hnd |]. apply fmap_sublist, sublist_filter.
  - eapply Forall_forall. intros item Hitem.
    apply list_elem_of_filter in Hitem as [_ Hitem].
    eapply Forall_forall in Hall; [exact Hall | exact Hitem].
Qed.

Lemma ledgerReachable_ledgerInvariant items :
  ledgerReachable items -> ledgerInvariant items.
Proof.
  induction 1 as [| now items question _ IH | items question _ IH].
  - split; [simpl; lia |]. split; [constructor | constructor].
  - by apply addMistakeEntry_keeps_ledgerInvariant.
  - by apply removeMistakeEntry_keeps_ledgerInvariant.
Qed.

(** X15.  Every ledger built from the empty one by addMistakeEntry and
    removeMistakeEntry has at most 50 entries, pairwise distinct ids, and in
    every entry the id skill + ":" + text of that entry and a miss count of
    at least 1. *)
Theorem ledgerReachable_invariant items :
  ledgerReachable items ->
  (length items <= 50)%nat /\
  NoDup (m_id <$> items) /\
  (forall item, item ∈ items ->
     m_id item = skillName (m_skill item) +:+ ":" +:+ m_text item /\
     1 <= misses item).
Proof.
  intros Hreach.
  destruct (ledgerReachable_ledgerInvariant items Hreach) as (Hlen & Hnd & Hall).
  split; [exact Hlen |]. split; [exact Hnd |].
  intros item Hitem. eapply Forall_forall in Hall; [exact Hall | exact Hitem].
Qed.

Lemma ledgerReachable_invariant_witness :
  let q := mkQuestion "add-7-ff" "2 + 3" 5 add 4 in
  let items := addMistakeEntry 20 (addMistakeEntry 10 [] q) q in
  (length items <= 50)%nat /\ NoDup (m_id <$> items).
Proof.
  intros q items.
  destruct (ledgerReachable_invariant items) as (Hlen & Hnd & _).
  - do 2 constructor. constructor.
  - split; [exact Hlen | exact Hnd].
Defined.

(** X16.  addMistakeEntry loses no other entry while there is room: an entry
    with another id stays in the ledger when the ledger has fewer than 50
    entries, or has at most 50 and already holds the question's key. *)
Theorem addMistakeEntry_keeps_other_entries now items question item :
  item ∈ items ->
  m_id item <> makeMistakeId question ->
  (length items < 50)%nat \/
  ((length items <= 50)%nat /\
   exists existing, existing ∈ items /\ m_id existing = makeMistakeId question) ->
  item ∈ addMistakeEntry now items question.
Proof.
  intros Hitem Hne Hroom.
  destruct (addMistakeEntry_cases now items question)
    as [[Habsent ->] | (i & existing & Hi & Hid & ->)].
  - destruct Hroom as [Hlt | (_ & existing & Hin & Hid)];
      [| by exfalso; apply (Habsent existing Hin)].
    rewrite take_ge by (simpl; unfold MAX_MISTAKES; lia). by right.
  - assert (length (delete i items) < 50)%nat as Hlen.
    { rewrite length_delete by eauto. apply lookup_lt_Some in Hi.
      destruct Hroom as [? | [? _]]; lia. }
    rewrite take_ge by (simpl; unfold MAX_MISTAKES; lia). right.
    apply list_elem_of_lookup in Hitem as [j Hj].
    destruct (decide (j = i)) as [-> | Hji]; [congruence |].
    apply list_elem_of_lookup.
    destruct (decide (j < i)%nat) as [Hlt | Hge].
    + exists j. by rewrite list_lookup_delete_lt.
    + exists (j - 1)%nat. rewrite list_lookup_delete_ge by lia.
      by replace (S (j - 1)) with j by lia.
Qed.

Lemma addMistakeEntry_keeps_other_entries_witness :
  let other := mkMistakeItem "mul:2 x 3" "2 x 3" 6 mul 1 4 100 in
  other ∈ addMistakeEntry 300 [other] (mkQuestion "add-7-ff" "2 + 3" 5 add 4).
Proof.
  intros other. apply addMistakeEntry_keeps_other_entries.
  - by left.
  - discriminate.
  - left. simpl. lia.
Defined.

(** X17.  A practice question built from a ledger entry has the text,
    answer, skill and level of the entry.  When the entry's id is the key of
    its skill and text, the question maps back to the entry: in a ledger
    with distinct ids, answering it correctly removes exactly that entry and
    missing it again moves the entry to the front with one more miss and
    the new time, its answer and level unchanged. *)
Theorem buildMistakeQuestion_round_trip items i item now hex later :
  items !! i = Some item ->
  NoDup (m_id <$> items) ->
  m_id item = skillName (m_skill item) +:+ ":" +:+ m_text item ->
  let question := buildMistakeQuestion item now hex in
  makeMistakeId question = m_id item /\
  removeMistakeEntry items question = delete i items /\
  addMistakeEntry later items question
  = take 50
      (mkMistakeItem (m_id item) (m_text item) (m_answer item) (m_skill item)
         (m_level item) (misses item + 1) later :: delete i items).
Proof.
  intros Hi Hnd Hkey question.
  assert (makeMistakeId question = m_id item) as Hid by (by rewrite Hkey).
  split; [exact Hid |]. split.
  - by eapply removeMistakeEntry_present.
  - rewrite (addMistakeEntry_present later items question i item Hi);
      [reflexivity | by rewrite Hid |].
    intros j other Hj Hlt Heq.
    assert (m_id <$> items !! j = m_id <$> items !! i) as Hsame
        by (rewrite Hj, Hi; simpl; congruence).
    rewrite <- !list_lookup_fmap in Hsame.
    assert (j = i); [| lia].
    eapply NoDup_lookup; [exact Hnd | by rewrite list_lookup_fmap, Hj |].
    rewrite list_lookup_fmap, Hi. simpl. by rewrite Hid in Heq; rewrite Heq.
Qed.

Lemma buildMistakeQuestion_round_trip_witness :
  let first := mkMistakeItem "mul:2 x 3" "2 x 3" 6 mul 1 4 100 in
  let second := mkMistakeItem "add:2 + 3" "2 + 3" 5 add 1 1 200 in
  removeMistakeEntry [first; second] (buildMistakeQuestion second 900 "ab")
  = [first].
Proof.
  intros first second.
  destruct (buildMistakeQuestion_round_trip [first; second] 1 second 900 "ab" 950)
    as (_ & Hremove & _); [reflexivity | | reflexivity | exact Hremove].
  apply (bool_decide_unpack _). by vm_compute.
Defined.

(** * The practice queue *)

Section Sorting.
Context {A : Type} (cmp : A -> A -> Z).

Lemma insertBy_Permutation (x : A) (l : list A) : insertBy cmp x l ≡ₚ x :: l.
Proof.
  induction l as [| y l IH]; simpl; [reflexivity |].
  destruct (cmp x y <=? 0); [reflexivity |].
  rewrite IH. apply Permutation_swap.
Qed.

Lemma sortBy_Permutation (l : list A) : sortBy cmp l ≡ₚ l.
Proof.
  induction l as [| x l IH]; simpl; [reflexivity |].
  fold (sortBy cmp l). by rewrite insertBy_Permutation, IH.
Qed.

Hypothesis cmp_total : forall x y, 0 < cmp x y -> cmp y x <= 0.
Hypothesis cmp_trans :
  forall x y z, cmp x y <= 0 -> cmp y z <= 0 -> cmp x z <= 0.

Lemma insertBy_sorted (x : A) (l : list A) :
  StronglySorted (fun a b => cmp a b <= 0) l ->
  StronglySorted (fun a b => cmp a b <= 0) (insertBy cmp x l).
Proof.
  induction 1 as [| y l Hsorted IH Hy]; simpl.
  - repeat constructor.
  - destruct (Z.leb_spec (cmp x y) 0) as [Hle | Hgt].
    + constructor; [by constructor |].
      constructor; [exact Hle |].
      eapply Forall_impl; [exact Hy |].
      intros z Hz. by eapply cmp_trans.
    + constructor; [exact IH |].
      rewrite insertBy_Permutation. constructor; [| exact Hy].
      by apply cmp_total.
Qed.

Lemma sortBy_sorted (l : list A) :
  StronglySorted (fun a b => cmp a b <= 0) (sortBy cmp l).
Proof.
  induction l as [| x l IH]; simpl; [constructor |].
  by apply insertBy_sorted.
Qed.
End Sorting.

Lemma StronglySorted_app_cross {A : Type} (R : A -> A -> Prop) (l1 l2 : list A) :
  StronglySorted R (l1 ++ l2) ->
  StronglySorted R l1 /\ forall x y, x ∈ l1 -> y ∈ l2 -> R x y.
Proof.
  induction l1 as [| a l1 IH]; simpl; intros Hsorted.
  - split; [constructor |]. intros x y Hx. by apply elem_of_nil in Hx.
  - apply StronglySorted_inv in Hsorted as [Hrest Ha].
    destruct (IH Hrest) as [Hs1 Hcross].
    apply Forall_app in Ha as [Ha1 Ha2].
    split; [by constructor |].
    intros x y Hx Hy. apply elem_of_cons in Hx as [-> | Hx].
    + eapply Forall_forall in Ha2; [exact Ha2 | exact Hy].
    + by apply Hcross.
Qed.

Lemma StronglySorted_weaken {A : Type} (R R' : A -> A -> Prop) (l : list A) :
  (forall x y, R x y -> R' x y) -> StronglySorted R l -> StronglySorted R' l.
Proof.
  intros Himpl. induction 1 as [| a l _ IH Ha]; constructor; [exact IH |].
  eapply Forall_impl; [exact Ha | apply Himpl].
Qed.

Lemma mistakeOrder_before (a b : MistakeItem) :
  mistakeOrder a b <= 0 <-> practisedBefore a b.
Proof.
  unfold mistakeOrder, practisedBefore.
  destruct (Z.eqb_spec (misses b) (misses a)); simpl; lia.
Qed.

Lemma mistakeOrder_total (x y : MistakeItem) :
  0 < mistakeOrder x y -> mistakeOrder y x <= 0.
Proof.
  unfold mistakeOrder.
  destruct (Z.eqb_spec (misses y) (misses x)),
           (Z.eqb_spec (misses x) (misses y)); simpl; lia.
Qed.

Lemma mistakeOrder_trans (x y z : MistakeItem) :
  mistakeOrder x y <= 0 -> mistakeOrder y z <= 0 -> mistakeOrder x z <= 0.
Proof.
  rewrite !mistakeOrder_before. unfold practisedBefore. lia.
Qed.

(** X18.  startMistakeSession starts nothing on an empty ledger or with a
    question count of 0.  With a non-empty ledger and a count of at least 1
    it queues min(count, ledger size) entries of the ledger, most misses
    first and the later miss first among equal counts; no entry left out
    goes before a queued one, and the first question restates the entry with
    the most misses. *)
Theorem startMistakeSession_queue mistakes count now hex :
  (mistakes = [] -> startMistakeSession mistakes count now hex = None) /\
  (count = 0 -> startMistakeSession mistakes count now hex = None) /\
  (mistakes <> [] -> 1 <= count ->
   exists first queue rest,
     startMistakeSession mistakes count now hex
     = Some (first :: queue, buildMistakeQuestion first now hex) /\
     length (first :: queue) = Nat.min (Z.to_nat count) (length mistakes) /\
     (first :: queue) ++ rest ≡ₚ mistakes /\
     StronglySorted practisedBefore (first :: queue) /\
     (forall x y, x ∈ first :: queue -> y ∈ rest -> practisedBefore x y) /\
     (forall item, item ∈ mistakes -> misses item <= misses first)).
Proof.
  split; [by intros -> |]. split.
  { intros ->. unfold startMistakeSession.
    by destruct (length mistakes =? 0)%nat. }
  intros Hne Hcount. unfold startMistakeSession.
  assert (0 < length mistakes)%nat as Hlen
      by (destruct mistakes; [done | simpl; lia]).
  destruct (Nat.eqb_spec (length mistakes) 0) as [| _]; [lia |].
  set (ordered := sortBy mistakeOrder mistakes).
  assert (ordered ≡ₚ mistakes) as Hperm by apply sortBy_Permutation.
  assert (StronglySorted practisedBefore ordered) as Hsorted.
  { eapply StronglySorted_weaken;
      [| apply (sortBy_sorted mistakeOrder mistakeOrder_total mistakeOrder_trans)].
    intros x y. apply mistakeOrder_before. }
  unfold sliceTo. destruct (Z.ltb_spec count 0) as [| _]; [lia |].
  set (n := Z.to_nat count).
  assert (1 <= n)%nat as Hn by (unfold n; lia).
  assert (length ordered = length mistakes) as Hlen' by (by rewrite Hperm).
  pose proof (take_drop n ordered) as Hsplit.
  destruct ordered as [| first tl] eqn:Hordered; [simpl in Hlen'; lia |].
  destruct n as [| n']; [lia |]. rewrite firstn_cons in Hsplit |- *.
  exists first, (take n' tl), (drop (S n') (first :: tl)).
  split; [reflexivity |].
  rewrite <- Hsplit in Hsorted.
  apply StronglySorted_app_cross in Hsorted as [Hqueue Hcross].
  split.
  { cbn [length] in Hlen' |- *. rewrite length_take. lia. }
  split; [by rewrite Hsplit |].
  split; [exact Hqueue |]. split; [exact Hcross |].
  intros item Hitem. rewrite <- Hperm in Hitem.
  rewrite <- Hsplit in Hitem. apply elem_of_app in Hitem as [Hitem | Hitem].
  - apply elem_of_cons in Hitem as [-> | Hitem]; [lia |].
    apply StronglySorted_inv in Hqueue as [_ Hfirst].
    eapply Forall_forall in Hfirst; [| exact Hitem].
    unfold practisedBefore in Hfirst. lia.
  - assert (practisedBefore first item) as Hbefore
        by (apply Hcross; [by left | exact Hitem]).
    unfold practisedBefore in Hbefore. lia.
Qed.

Lemma startMistakeSession_queue_witness :
  let a := mkMistakeItem "mul:2 x 3" "2 x 3" 6 mul 1 2 100 in
  let b := mkMistakeItem "add:2 + 3" "2 + 3" 5 add 1 4 200 in
  let c := mkMistakeItem "sub:9 - 3" "9 - 3" 6 sub 1 2 300 in
  exists queue q,
    startMistakeSession [a; b; c] 2 900 "ab" = Some (queue, q) /\
    queue = [b; c] /\ q_text q = "2 + 3".
Proof.
  intros a b c.
  destruct (startMistakeSession_queue [a; b; c] 2 900 "ab")
    as (_ & _ & Hstart).
  destruct Hstart as (first & queue & rest & Heq & _); [discriminate | lia |].
  exists (first :: queue), (buildMistakeQuestion first 900 "ab").
  split; [exact Heq |].
  vm_compute in Heq. injection Heq as <- <-. split; reflexivity.
Defined.


(** * Settings *)

(** X19.  Whatever steps are applied to the default settings, the question
    count stays in [5, 50], the time limit in [5, 60] and the negative level
    in [0, MAX_LEVEL]; so from such settings a practice session over a
    non-empty ledger always starts. *)
Theorem settingsReachable_in_range settings :
  settingsReachable settings ->
  5 <= questionCount settings <= 50 /\
  5 <= timeLimitSeconds settings <= 60 /\
  0 <= negativeLevel settings <= MAX_LEVEL /\
  (forall mistakes now hex,
     mistakes <> [] ->
     is_Some (startMistakeSession mistakes (questionCount settings) now hex)).
Proof.
  intros Hreach.
  assert (5 <= questionCount settings <= 50 /\
          5 <= timeLimitSeconds settings <= 60 /\
          0 <= negativeLevel settings <= MAX_LEVEL) as (Hq & Ht & Hn).
  { rewrite MAX_LEVEL_eq.
    induction Hreach as [| delta prev _ IH | delta prev _ IH | delta prev _ IH];
      simpl; rewrite ?MAX_LEVEL_eq; lia. }
  repeat split; try lia.
  intros mistakes now hex Hne. unfold startMistakeSession.
  destruct mistakes as [| item mistakes]; [done |]. simpl length.
  change (S (length mistakes) =? 0)%nat with false. cbv iota.
  unfold sliceTo. destruct (Z.ltb_spec (questionCount settings) 0); [lia |].
  pose proof (sortBy_Permutation mistakeOrder (item :: mistakes)) as Hperm.
  destruct (sortBy mistakeOrder (item :: mistakes)) as [| first tl].
  - by apply Permutation_nil_cons in Hperm.
  - destruct (Z.to_nat (questionCount settings)) as [| n] eqn:Hcount; [lia |].
    rewrite firstn_cons. eauto.
Qed.

Lemma settingsReachable_in_range_witness :
  let settings :=
    adjustNegativeLevel 20 (adjustQuestionCount (-30) DEFAULT_SETTINGS) in
  questionCount settings = 5 /\ negativeLevel settings = 12 /\
  5 <= timeLimitSeconds settings <= 60.
Proof.
  intros settings.
  destruct (settingsReachable_in_range settings) as (_ & Ht & _).
  - do 2 constructor. constructor.
  - repeat split; apply Ht.
Defined.

(** * Tip helpers *)

Lemma roundToBase_div (value base : Z) :
  0 < base ->
  roundToBase value base = (2 * value + base) / (2 * base) * base.
Proof.
  intros Hbase. unfold roundToBase. f_equal.
  rewrite Zdiv_Qdiv. apply Qfloor_comp.
  rewrite inject_Z_plus, !inject_Z_mult.
  assert (~ inject_Z base == 0)%Q as Hnz.
  { change 0%Q with (inject_Z 0). rewrite inject_Z_injective. lia. }
  change (inject_Z 2) with (2 # 1)%Q. field. exact Hnz.
Qed.

(** X20.  For a positive base roundToBase returns a multiple of the base
    at distance at most base / 2 from the value, the upper one when the
    value is half-way; a multiple of the base is returned as it is. *)
Theorem roundToBase_nearest_multiple value base :
  0 < base ->
  let r := roundToBase value base in
  (base | r) /\
  - base <= 2 * (value - r) < base /\
  ((base | value) -> r = value).
Proof.
  intros Hbase r.
  assert (r = (2 * value + base) / (2 * base) * base) as Hr
      by (by apply roundToBase_div).
  set (k := (2 * value + base) / (2 * base)) in *.
  assert (2 * base * k <= 2 * value + base < 2 * base * (k + 1)) as Hk.
  { unfold k. split.
    - apply Z.mul_div_le. lia.
    - rewrite Z.mul_add_distr_l, Z.mul_1_r.
      pose proof (Z.mul_succ_div_gt (2 * value + base) (2 * base)). lia. }
  split; [exists k; lia |]. split; [nia |].
  intros [m Hm]. rewrite Hr, Hm. f_equal.
  destruct (Z_lt_le_dec k m) as [Hlt | Hge]; [exfalso; nia |].
  destruct (Z_lt_le_dec m k) as [Hlt | Hle]; [exfalso; nia | lia].
Qed.

Lemma roundToBase_nearest_multiple_witness :
  roundToBase 47 10 = 50 /\ roundToBase 45 10 = 50 /\
  roundToBase 44 10 = 40 /\ roundToBase 300 100 = 300.
Proof.
  split; [reflexivity |]. split; [reflexivity |]. split; [reflexivity |].
  apply (roundToBase_nearest_multiple 300 100); [lia | by exists 3].
Defined.

Lemma gcdLoop_spec (x y : Z) : 0 <= x -> 0 <= y -> gcdLoop x y = Z.gcd x y.
Proof.
  funelim (gcdLoop x y); intros Hx Hy.
  - subst. rewrite Z.gcd_0_r. lia.
  - rewrite H.
    + rewrite Z.rem_mod_nonneg by lia. rewrite Z.gcd_mod_r by lia.
      apply Z.gcd_comm.
    + exact Hy.
    + apply Z.rem_nonneg; lia.
Qed.

(** X21.  gcd terminates on all integers and returns the greatest common
    divisor of its arguments: a non-negative number that divides both and
    that every common divisor divides; gcd(a, 0) = |a|. *)
Theorem gcd_greatest_common_divisor a b :
  gcd a b = Z.gcd a b /\
  0 <= gcd a b /\
  (gcd a b | a) /\ (gcd a b | b) /\
  (forall d, (d | a) -> (d | b) -> (d | gcd a b)) /\
  gcd a 0 = Z.abs a.
Proof.
  assert (forall u v, gcd u v = Z.gcd u v) as Hspec.
  { intros u v. unfold gcd. rewrite gcdLoop_spec by lia.
    by rewrite Z.gcd_abs_l, Z.gcd_abs_r. }
  rewrite !Hspec. split; [reflexivity |].
  split; [apply Z.gcd_nonneg |].
  split; [apply Z.gcd_divide_l |].
  split; [apply Z.gcd_divide_r |].
  split; [intros d; apply Z.gcd_greatest |].
  apply Z.gcd_0_r.
Qed.

Lemma gcd_greatest_common_divisor_witness :
  gcd 84 36 = 12 /\ (6 | gcd 84 36).
Proof.
  destruct (gcd_greatest_common_divisor 84 36) as (Heq & _ & _ & _ & Hgreatest & _).
  split; [rewrite Heq; reflexivity |].
  apply Hgreatest; [by exists 14 | by exists 6].
Defined.

Example gcd_examples : gcd 84 36 = 12 /\ gcd (-12) 18 = 6 /\ gcd 0 0 = 0.
Proof. repeat split; vm_compute; reflexivity. Qed.

(** * Recording a result *)

(** X22.  Recording a result for the current question counts it once in the
    session, touches the statistics of the question's skill only, and
    updates the ledger by the outcome: a miss puts the question's entry at
    the head of a ledger of at most 50 entries, a correct answer in a
    mistake session leaves no entry with the question's key, and a correct
    answer in a standard session leaves the ledger as it is.  Without a
    current question nothing changes. *)
Theorem applyResult_effect now c elapsed timedOut st :
  let st' := applyResult now c elapsed timedOut st in
  (app_question st = None -> st' = st) /\
  (forall question,
     app_question st = Some question ->
     let key := skillName (q_skill question) +:+ ":" +:+ q_text question in
     s_correct (app_session st') + s_wrong (app_session st')
     = s_correct (app_session st) + s_wrong (app_session st) + 1 /\
     app_stats st' = updateStats (app_stats st) (q_skill question) c elapsed /\
     (forall other, other <> q_skill question ->
        statsGet (app_stats st') other = statsGet (app_stats st) other) /\
     app_answered st' = true /\
     (c = false ->
        (length (app_mistakes st') <= 50)%nat /\
        exists entry rest,
          app_mistakes st' = entry :: rest /\
          m_id entry = key /\ m_answer entry = q_answer question /\
          lastMissedAt entry = now) /\
     (c = true -> app_sessionKind st = mistakesKind ->
        forall entry, entry ∈ app_mistakes st' -> m_id entry <> key) /\
     (c = true -> app_sessionKind st = standard ->
        app_mistakes st' = app_mistakes st)).
Proof.
  intros st'. split.
  { intros Hq. unfold st', applyResult. by rewrite Hq. }
  intros question Hq key. unfold st', applyResult. rewrite Hq.
  cbn [app_session app_stats app_answered app_mistakes s_correct s_wrong].
  split; [destruct c; lia |]. split; [reflexivity |].
  split; [intros other Hne; by apply updateStats_frame |].
  split; [reflexivity |].
  split; [| split].
  - intros ->. cbn [negb]. split; [apply addMistakeEntry_length |].
    destruct (addMistakeEntry_cases now (app_mistakes st) question)
      as [[_ ->] | (i & existing & _ & Hid & ->)];
      change (take MAX_MISTAKES (?x :: ?l)) with (x :: take 49 l);
      eexists _, _; (split; [reflexivity |]); by repeat split.
  - intros -> ->. cbn [negb]. intros entry Hentry.
    apply list_elem_of_filter in Hentry as [Hne _]. exact Hne.
  - by intros -> ->.
Qed.

Lemma applyResult_effect_witness :
  let q := mkQuestion "add-7-ff" "2 + 3" 5 add 1 in
  let st := mkApp createDefaultStats (Some q) standard []
              (mkSession 0 0) None false None false in
  app_mistakes (applyResult 50 false 7000 false st)
  = [mkMistakeItem "add:2 + 3" "2 + 3" 5 add 1 1 50] /\
  app_mistakes (applyResult 60 true 700 false st) = [].
Proof.
  intros q st.
  destruct (applyResult_effect 60 true 700 false st) as (_ & Hsome).
  destruct (Hsome q eq_refl) as (_ & _ & _ & _ & _ & _ & Hstd).
  split; [reflexivity |]. by apply Hstd.
Defined.

(** X23.  Recording a result keeps the state well formed: statistics
    reachable from the defaults, a ledger reachable from the empty one and
    non-negative session counts stay so, hence afterwards every level is in
    [1, MAX_LEVEL] and the ledger holds at most 50 entries with distinct
    ids. *)
Theorem applyResult_keeps_state_well_formed now c elapsed timedOut st :
  reachable (app_stats st) ->
  ledgerReachable (app_mistakes st) ->
  0 <= s_correct (app_session st) ->
  0 <= s_wrong (app_session st) ->
  let st' := applyResult now c elapsed timedOut st in
  reachable (app_stats st') /\
  ledgerReachable (app_mistakes st') /\
  0 <= s_correct (app_session st') /\
  0 <= s_wrong (app_session st') /\
  (forall skill, 1 <= level (statsGet (app_stats st') skill) <= MAX_LEVEL) /\
  (length (app_mistakes st') <= 50)%nat /\
  NoDup (m_id <$> app_mistakes st').
Proof.
  intros Hstats Hledger Hc Hw st'.
  assert (reachable (app_stats st') /\ ledgerReachable (app_mistakes st') /\
          0 <= s_correct (app_session st') /\ 0 <= s_wrong (app_session st'))
    as (Hstats' & Hledger' & Hc' & Hw').
  { unfold st', applyResult. destruct (app_question st) as [question |];
      [| by repeat split].
    cbn [app_session app_stats app_mistakes s_correct s_wrong].
    split; [by constructor |]. split.
    - destruct c; cbn [negb]; [| by constructor].
      destruct (app_sessionKind st); [exact Hledger | by constructor].
    - destruct c; lia. }
  destruct (ledgerReachable_ledgerInvariant _ Hledger') as (Hlen & Hnd & _).
  repeat split; try assumption;
    apply (reachable_all_skillInvariant (app_stats st') Hstats' skill).
Qed.

Lemma applyResult_keeps_state_well_formed_witness :
  let q := mkQuestion "add-7-ff" "2 + 3" 5 add 1 in
  let st := mkApp createDefaultStats (Some q) standard []
              (mkSession 0 0) None false None false in
  let st' := applyResult 60 false 700 true (applyResult 50 false 7000 false st) in
  reachable (app_stats st') /\ (length (app_mistakes st') <= 50)%nat.
Proof.
  intros q st st'.
  destruct (applyResult_keeps_state_well_formed 50 false 7000 false st)
    as (Hs1 & Hl1 & Hc1 & Hw1 & _);
    [constructor | constructor | simpl; lia | simpl; lia |].
  destruct (applyResult_keeps_state_well_formed 60 false 700 true
              (applyResult 50 false 7000 false st) Hs1 Hl1 Hc1 Hw1)
    as (Hs2 & _ & _ & _ & _ & Hlen & _).
  split; [exact Hs2 | exact Hlen].
Defined.


(** X24.  The keypad can type the answer of every question createQuestion
    makes under the same settings: with random values in [0, 1), when the
    keypad does not offer the minus key for the created question, its answer
    is not negative. *)
Theorem createQuestion_answer_fits_keypad
    selectedMode snapshot settings rPick env :
  (0 <= rndA env)%Q -> (rndA env < 1)%Q ->
  (0 <= rndB env)%Q -> (rndB env < 1)%Q ->
  exists q,
    createQuestion selectedMode snapshot (negativeLevel settings) rPick env
    = Some q /\
    (allowNegativeAnswer (Some q) settings = false -> 0 <= q_answer q) /\
    (q_answer q < 0 -> allowNegativeAnswer (Some q) settings = true).
Proof.
  intros HA0 HA1 HB0 HB1. unfold createQuestion.
  set (skill := match selectedMode with
                | skillMode k => k
                | mix => pickSkill snapshot rPick
                end).
  set (lvl := level (statsGet snapshot skill)).
  destruct (generateQuestion_answer_sign skill lvl
              (bool_decide (skill = sub) && (0 <? negativeLevel settings)
               && (negativeLevel settings <=? lvl))
              env HA0 HA1 HB0 HB1) as (q & Hq & Hk & Hl & Hneg).
  exists q. split; [exact Hq |].
  unfold allowNegativeAnswer. rewrite Hk, Hl.
  split.
  - intros Hflag. destruct (Z_lt_le_dec (q_answer q) 0) as [Hlt | Hge];
      [| exact Hge].
    destruct (Hneg Hlt) as [_ Htrue]. congruence.
  - intros Hlt. by destruct (Hneg Hlt).
Qed.

Lemma createQuestion_answer_fits_keypad_witness :
  let top := statsSet createDefaultStats sub (mkSkillStats 3 0 0 []) in
  let env := mkEnv (1 # 10) (9 # 10) 5 "c0de" in
  exists q,
    createQuestion (skillMode sub) top 4 0 env = Some q /\ 0 <= q_answer q.
Proof.
  intros top env.
  destruct (createQuestion_answer_fits_keypad (skillMode sub) top
              (mkSettings 10 10 4) 0 env)
    as (q & Hq & Hpos & _);
    [discriminate | reflexivity | discriminate | reflexivity |].
  exists q. split; [exact Hq |]. apply Hpos.
  vm_compute in Hq. injection Hq as <-. reflexivity.
Defined.

(** * Climbing the levels *)











(** * Accuracy after a result *)

Lemma countCorrect_snoc (h : list Result) (r : Result) :
  countCorrect (h ++ [r]) = countCorrect h + (if correct r then 1 else 0).
Proof.
  unfold countCorrect. rewrite fold_left_app. reflexivity.
Qed.

Lemma ratio_le (a b c d : Z) :
  0 < b -> 0 < d -> a * d <= c * b ->
  (inject_Z a / inject_Z b <= inject_Z c / inject_Z d)%Q.
Proof.
  intros Hb Hd Hcross.
  assert (0 < inject_Z b)%Q as HB
      by (change 0%Q with (inject_Z 0); rewrite <- Zlt_Qlt; lia).
  assert (0 < inject_Z d)%Q as HD
      by (change 0%Q with (inject_Z 0); rewrite <- Zlt_Qlt; lia).
  apply Qle_shift_div_l; [exact HD |].
  assert (inject_Z a / inject_Z b * inject_Z d
          == inject_Z a * inject_Z d / inject_Z b)%Q as -> by (field; lra).
  apply Qle_shift_div_r; [exact HB |].
  rewrite <- !inject_Z_mult, <- Zle_Qle. exact Hcross.
Qed.

(** X27.  On a history of at most 12 entries, as updateStats keeps it, a
    correct result never lowers the accuracy of the skill and an incorrect
    result never raises it. *)
Theorem updateStats_accuracy_monotone stats skill c t :
  (length (history (statsGet stats skill)) <= 12)%nat ->
  let before := getAccuracy (statsGet stats skill) in
  let after := getAccuracy (statsGet (updateStats stats skill c t) skill) in
  (c = true -> (before <= after)%Q) /\ (c = false -> (after <= before)%Q).
Proof.
  intros Hlen before after. unfold before, after, getAccuracy.
  rewrite updateStats_history.
  change MAX_HISTORY with 12%nat. rewrite sliceLast_snoc.
  set (h := history (statsGet stats skill)) in *.
  pose proof (countCorrect_bounds h) as Hcount.
  destruct (decide (length h = 12%nat)) as [Hfull | Hshort].
  - destruct h as [| oldest rest] eqn:Hh; [discriminate |].
    assert (sliceLast 11 (oldest :: rest) = rest) as ->.
    { unfold sliceLast. rewrite Hfull. reflexivity. }
    simpl in Hfull. injection Hfull as Hrest.
    unfold accuracyFromHistory.
    rewrite length_app. cbn [length]. rewrite Hrest. cbn [Nat.eqb Nat.add].
    rewrite countCorrect_snoc, countCorrect_cons. cbn [correct].
    split; intros ->; apply ratio_le; try lia; destruct (correct oldest); lia.
  - assert (sliceLast 11 h = h) as ->.
    { unfold sliceLast. replace (length h - 11)%nat with 0%nat by lia.
      reflexivity. }
    unfold accuracyFromHistory.
    rewrite length_app. cbn [length].
    replace (length h + 1 =? 0)%nat with false
      by (symmetry; apply Nat.eqb_neq; lia).
    rewrite countCorrect_snoc. cbn [correct].
    destruct (Nat.eqb_spec (length h) 0) as [Hzero | Hpos].
    + assert (countCorrect h = 0) as -> by lia. rewrite Hzero.
      split; intros ->; vm_compute; congruence.
    + split; intros ->; apply ratio_le; nia.
Qed.

Lemma updateStats_accuracy_monotone_witness :
  let s := feed createDefaultStats add [mkResult true 10; mkResult false 10] in
  (getAccuracy (statsGet s add)
   <= getAccuracy (statsGet (updateStats s add true 10) add))%Q.
Proof.
  intros s.
  apply (updateStats_accuracy_monotone s add true 10);
    [simpl; lia | reflexivity].
Defined.

(** * The weakest skill and the weighted choice *)

Lemma getWeakestSkill_min_score stats k :
  (skillScore stats (getWeakestSkill stats) <= skillScore stats k)%Q.
Proof.
  pose proof (skillScore_le_1 stats add).
  pose proof (skillScore_le_1 stats sub).
  pose proof (skillScore_le_1 stats mul).
  pose proof (skillScore_le_1 stats div).
  revert k.
  unfold getWeakestSkill, SKILL_LIST. simpl. unfold weakestStep.
  repeat match goal with
    | |- context [Qlt_le_dec ?x ?y] => destruct (Qlt_le_dec x y)
    end; simpl; intros []; lra.
Qed.

(** X28.  The skill getWeakestSkill reports is the one pickSkill favours:
    no skill has a larger weight, so none has a larger share of the random
    draw. *)
Theorem weakest_skill_has_largest_weight stats k :
  (skillWeight stats k <= skillWeight stats (getWeakestSkill stats))%Q.
Proof.
  unfold skillWeight.
  pose proof (getWeakestSkill_min_score stats k) as Hmin.
  apply Q.max_lub_iff. split.
  - apply Q.le_max_l.
  - eapply Qle_trans; [| apply Q.le_max_r]. lra.
Qed.
